(** * run_sextractor.py: companion-image resolver and batch driver

    A shallow embedding of [src/run_sextractor.py].  The Python library
    functions the script calls ([os.path.dirname], [os.path.join],
    [pathlib.Path.stem], [str.replace], [glob.glob], [sorted],
    [subprocess.run], ...) are written out as executable functions with POSIX
    semantics; the script's own functions ([find_images], [find_weight_image],
    [run_sextractor], [check_sextractor], [main]) are embedded in a small
    state-and-exception monad over a world made of the file system and a
    chronological trace of the operations performed.

    Modelling choices:
    - the file system is the finite set of path spellings that resolve to a
      file or directory; names are case-sensitive, and the entries of a
      directory [d] are the one-component names [n] with [d/n] in the set;
    - the exceptions are those the script raises or names
      ([CalledProcessError], [FileNotFoundError], [SystemExit]); failures of
      the operating system in [print], [glob] or [os.makedirs] are not
      modelled;
    - whether the external binary can be launched is a fact of the
      environment that does not change during a run, and the exit status of
      an invocation is a function of its argument vector. *)

From Stdlib Require Import Ascii.
From stdpp Require Import gmap strings list pretty sorting.

(** ** Python string primitives *)

Module Str.

(** [s.startswith(p)] *)
Definition startswith (p s : string) : bool := String.prefix p s.

(** [s.endswith(suf)] *)
Fixpoint endswith (suf s : string) : bool :=
  String.eqb suf s ||
  match s with
  | EmptyString => false
  | String _ r => endswith suf r
  end.

(** [sub in s] *)
Fixpoint contains (sub s : string) : bool :=
  String.prefix sub s ||
  match s with
  | EmptyString => false
  | String _ r => contains sub r
  end.

(** [s[n:]] *)
Fixpoint drop (n : nat) (s : string) : string :=
  match n, s with
  | S k, String _ r => drop k r
  | _, _ => s
  end.

(** The scan of [s.replace(old, new)] for a non-empty [old]: occurrences
    are taken leftmost first and do not overlap.  [skip] counts the
    characters of an occurrence that are still to be passed over. *)
Fixpoint replace_from (old new : string) (skip : nat) (s : string) : string :=
  match s with
  | EmptyString => EmptyString
  | String c r =>
      match skip with
      | S k => replace_from old new k r
      | O =>
          if String.prefix old s
          then new +:+ replace_from old new (String.length old - 1) r
          else String c (replace_from old new 0 r)
      end
  end.

(** [s.replace(old, new)], for the non-empty [old] the script uses. *)
Definition replace (old new s : string) : string := replace_from old new 0 s.

(** [s.rfind(c)] for a one-character [c]; [None] stands for Python's -1. *)
Fixpoint rfind (c : ascii) (s : string) : option nat :=
  match s with
  | EmptyString => None
  | String a r =>
      match rfind c r with
      | Some i => Some (S i)
      | None => if Ascii.eqb a c then Some 0 else None
      end
  end.

(** [s.split("/")] *)
Fixpoint split_sep (s : string) : list string :=
  match s with
  | EmptyString => [EmptyString]
  | String c r =>
      if Ascii.eqb c "/" then EmptyString :: split_sep r
      else match split_sep r with
           | x :: xs => String c x :: xs
           | [] => [String c EmptyString]
           end
  end.

(** [s.rstrip("/")] *)
Fixpoint rstrip_sep (s : string) : string :=
  match s with
  | EmptyString => EmptyString
  | String c r =>
      let r' := rstrip_sep r in
      if Ascii.eqb c "/" && String.eqb r' EmptyString then EmptyString else String c r'
  end.

(** [s == "/" * len(s)] *)
Fixpoint all_sep (s : string) : bool :=
  match s with
  | EmptyString => true
  | String c r => Ascii.eqb c "/" && all_sep r
  end.

(** ["/" in s] *)
Fixpoint has_sep (s : string) : bool :=
  match s with
  | EmptyString => false
  | String c r => Ascii.eqb c "/" || has_sep r
  end.

(** [s[:s.rfind("/") + 1]] *)
Fixpoint upto_last_sep (s : string) : string :=
  match s with
  | EmptyString => EmptyString
  | String c r => if has_sep s then String c (upto_last_sep r) else EmptyString
  end.

(** [s * n] *)
Fixpoint repeat (s : string) (n : nat) : string :=
  match n with
  | O => EmptyString
  | S k => s +:+ repeat s k
  end.

(** The newline character of the literals that contain an escaped one. *)
Definition nl : string := String "010" EmptyString.

End Str.

(** ** [os.path] and [pathlib] (POSIX flavour) *)

(** [os.path.dirname(p)] *)
Definition os_path_dirname (p : string) : string :=
  let head := Str.upto_last_sep p in
  if negb (String.eqb head EmptyString) && negb (Str.all_sep head)
  then Str.rstrip_sep head else head.

(** [os.path.join(a, b)] *)
Definition os_path_join (a b : string) : string :=
  if Str.startswith "/" b then b
  else if String.eqb a EmptyString || Str.endswith "/" a then a +:+ b
  else a +:+ "/" +:+ b.

(** [Path(p).name]: the last component of [p] that is neither empty nor
    ["."], or the empty string when there is none. *)
Definition path_name (p : string) : string :=
  List.last
    (List.filter (fun x => negb (String.eqb x EmptyString) && negb (String.eqb x "."))
                 (Str.split_sep p))
    EmptyString.

(** [Path(p).stem]: the name without its last suffix; a leading or a
    trailing dot does not start a suffix. *)
Definition path_stem (p : string) : string :=
  let name := path_name p in
  match Str.rfind "." name with
  | Some i =>
      if (0 <? i) && (i <? String.length name - 1)
      then String.substring 0 i name else name
  | None => name
  end.

(** ** The world the script runs in *)

(** Operations on the outside world, in the order they are performed. *)
Inductive event : Type :=
  | PathExists (path : string)        (* [os.path.exists(path)] *)
  | Glob (pathname : string)      (* [glob.glob(pathname)] *)
  | Makedirs (path : string)      (* [os.makedirs(path, exist_ok=True)] *)
  | Run (argv : list string)      (* [subprocess.run(argv, ...)] *)
  | Print (line : string).        (* [print(line)] *)

(** [files] holds the path spellings that currently resolve to a file or a
    directory; [trace] is the chronological log of operations. *)
Record world : Type := World { files : gset string; trace : list event }.

(** What is known about the external tool: whether [sex] can be launched,
    and the exit status and error output it gives for an argument vector.
    The installation does not change during a run.  The files the tool
    itself writes under the catalog directory are not tracked. *)
Record environment : Type := Environment {
  sex_installed : bool;
  sex_status : list string → Z;
  sex_stderr : list string → string
}.

(** The exceptions the script raises or handles. *)
Inductive exn : Type :=
  | CalledProcessError (stderr : string)
  | FileNotFoundError
  | SystemExit (code : Z).

(** Computations: a world transformer that returns a value or raises. *)
Definition M (A : Type) : Type := world → (exn + A) * world.

#[export] Instance M_ret : MRet M := λ A (a : A) w, (inr a, w).
#[export] Instance M_bind : MBind M := λ A B (f : A → M B) (c : M A) w,
  match c w with
  | (inl e, w') => (inl e, w')
  | (inr a, w') => f a w'
  end.

Definition raise {A} (e : exn) : M A := λ w, (inl e, w).

(** [try: body  except ...: handler]; [handler e = None] when no clause
    matches [e], which then propagates. *)
Definition try_except {A} (body : M A) (handler : exn → option (M A)) : M A :=
  λ w, match body w with
       | (inl e, w') =>
           match handler e with
           | Some h => h w'
           | None => (inl e, w')
           end
       | (inr a, w') => (inr a, w')
       end.

Definition log (e : event) : M unit :=
  λ w, (inr tt, World (files w) (trace w ++ [e])).

Definition print (line : string) : M unit := log (Print line).

Definition sys_exit {A} (code : Z) : M A := raise (SystemExit code).

Definition os_path_exists (path : string) : M bool :=
  λ w, (inr (bool_decide (path ∈ files w)),
        World (files w) (trace w ++ [PathExists path])).

Definition os_makedirs (path : string) : M unit :=
  λ w, (inr tt, World ({[path]} ∪ files w) (trace w ++ [Makedirs path])).

(** [subprocess.run(argv, capture_output=True, check=True)] for the one
    program the script launches. *)
Definition subprocess_run (env : environment) (argv : list string) : M unit :=
  λ w, let w' := World (files w) (trace w ++ [Run argv]) in
       if sex_installed env then
         if bool_decide (sex_status env argv = 0%Z) then (inr tt, w')
         else (inl (CalledProcessError (sex_stderr env argv)), w')
       else (inl FileNotFoundError, w').


(** *** Loops *)

(** [for x in xs: body] where the body may [return] from the enclosing
    function: [Some v] is a return of [v], [None] falls through. *)
Fixpoint for_return {A R} (xs : list A) (body : A → M (option R)) : M (option R) :=
  match xs with
  | [] => mret None
  | x :: rest =>
      r ← body x;
      match r with
      | Some v => mret (Some v)
      | None => for_return rest body
      end
  end.

(** Statements in sequence, the first [return] wins. *)
Definition or_else {R} (c k : M (option R)) : M (option R) :=
  r ← c; match r with Some v => mret (Some v) | None => k end.

(** [for x in xs: body] updating a local variable. *)
Fixpoint for_fold {A S} (xs : list A) (s : S) (body : A → S → M S) : M S :=
  match xs with
  | [] => mret s
  | x :: rest => s' ← body x s; for_fold rest s' body
  end.

(** [for x in xs: body] *)
Definition for_each {A} (xs : list A) (body : A → M unit) : M unit :=
  for_fold xs tt (λ x _, body x).

(** *** [glob] *)

(** [fnmatch.fnmatchcase(name, pat)] for patterns whose only wildcard
    is [*]. *)
Fixpoint fnmatch (pat name : string) : bool :=
  match pat with
  | EmptyString => String.eqb name EmptyString
  | String c pat' =>
      if Ascii.eqb c "*" then
        (fix star (n : string) : bool :=
           fnmatch pat' n ||
           match n with
           | EmptyString => false
           | String _ n' => star n'
           end) name
      else
        match name with
        | EmptyString => false
        | String d name' => Ascii.eqb c d && fnmatch pat' name'
        end
  end.

(** [glob._ishidden] *)
Definition ishidden (name : string) : bool := Str.startswith "." name.

(** [s.removeprefix(pre)] when [s] starts with [pre]. *)
Fixpoint strip_prefix (pre s : string) : option string :=
  match pre, s with
  | EmptyString, _ => Some s
  | String a pre', String b s' =>
      if Ascii.eqb a b then strip_prefix pre' s' else None
  | String _ _, EmptyString => None
  end.

(** The entry name under which [path] is listed in directory [dir]. *)
Definition entry_in (dir path : string) : option string :=
  name ← strip_prefix (os_path_join dir EmptyString) path;
  if negb (String.eqb name EmptyString) && negb (Str.has_sep name) then Some name else None.

(** The names [os.scandir(dir)] yields, in the order of the listing. *)
Definition listdir (fs : gset string) (dir : string) : list string :=
  omap (entry_in dir) (elements fs).

(** The matches of [pathname] in [fs], for a pathname whose wildcards are
    all in the last component. *)
Definition glob_in (fs : gset string) (pathname : string) : list string :=
  let dirname := os_path_dirname pathname in
  let basename := Str.drop (String.length (Str.upto_last_sep pathname)) pathname in
  os_path_join dirname <$>
    List.filter (λ name, (ishidden basename || negb (ishidden name)) && fnmatch basename name)
                (listdir fs dirname).

Definition glob_glob (pathname : string) : M (list string) :=
  λ w, (inr (glob_in (files w) pathname),
        World (files w) (trace w ++ [Glob pathname])).

(** [sorted(l)] on strings *)
Definition sorted (l : list string) : list string := merge_sort String.le l.

(** ** The script *)

(** *** Configuration *)

Definition CONFIG_FILE : string := "default.sex".
Definition PARAM_FILE : string := "default.param".
Definition IMAGE_EXTENSIONS : list string := ["*.fits"; "*.fit"; "*.FITS"; "*.FIT"].

Definition MAP_RMS : string := "MAP_RMS".
Definition MAP_WEIGHT : string := "MAP_WEIGHT".

Definition WEIGHT_SUFFIXES : gmap string (list string) :=
  <[MAP_RMS := ["_stddev"; "_stdev"; "_rms"; "_unc"; "_uncert"; "_sigma"]]>
  (<[MAP_WEIGHT := ["_weight"; "_wht"; "_wt"; "_ivar"]]> ∅).

(** The tuple of extensions every loop of [find_weight_image] walks. *)
Definition FILE_EXTS : list string := [".fits"; ".fit"; ".FITS"; ".FIT"].

(** *** [check_sextractor] *)

Definition check_sextractor (env : environment) : M bool :=
  try_except
    (subprocess_run env ["sex"; "--version"];; mret true)
    (λ e, match e with
          | CalledProcessError _ | FileNotFoundError =>
              Some (print "ERROR: SourceExtractor (sex) not found!";;
                    print "Please install SExtractor first.";;
                    mret false)
          | _ => None
          end).

(** *** [find_images] *)

Definition find_images (directory : string) : M (list string) :=
  images ← for_fold IMAGE_EXTENSIONS [] (λ ext images,
              found ← glob_glob (os_path_join directory ext);
              mret (images ++ found));
  mret (sorted images).

(** *** [find_weight_image] *)

(** The innermost loop, shared by the four passes: try [base] with each
    extension and return [(role, candidate)] at the first one that exists. *)
Definition try_extensions (role image_dir base : string)
  : M (option (option string * option string)) :=
  for_return FILE_EXTS (λ file_ext,
    let candidate := os_path_join image_dir (base +:+ file_ext) in
    found ← os_path_exists candidate;
    if found : bool then mret (Some (Some role, Some candidate)) else mret None).

Definition uncertainty_names : list string :=
  ["unc"; "stddev"; "stdev"; "rms"; "uncert"; "sigma"].
Definition weight_names : list string := ["weight"; "wht"; "wt"; "ivar"].
Definition components_to_replace : list string := ["-int"; "-sci"].

Definition find_weight_image (image_path : string)
  : M (option string * option string) :=
  let image_dir :=
    let d := os_path_dirname image_path in if String.eqb d EmptyString then "." else d in
  let stem := path_stem image_path in
  r ← or_else
        (* Pattern 1: suffix candidates, stddev/uncertainty first *)
        (for_return (WEIGHT_SUFFIXES !!! MAP_RMS) (λ suffix,
           try_extensions MAP_RMS image_dir (stem +:+ suffix)))
     (or_else
        (* Pattern 1: suffix candidates for weight maps *)
        (for_return (WEIGHT_SUFFIXES !!! MAP_WEIGHT) (λ suffix,
           try_extensions MAP_WEIGHT image_dir (stem +:+ suffix)))
     (or_else
        (* Pattern 2: component replacement, uncertainty/stddev images *)
        (for_return components_to_replace (λ component,
           if Str.contains component stem then
             for_return uncertainty_names (λ unc_name,
               let replacement_stem := Str.replace component ("-" +:+ unc_name) stem in
               try_extensions MAP_RMS image_dir replacement_stem)
           else mret None))
        (* Pattern 2: component replacement, weight images *)
        (for_return components_to_replace (λ component,
           if Str.contains component stem then
             for_return weight_names (λ weight_name,
               let replacement_stem := Str.replace component ("-" +:+ weight_name) stem in
               try_extensions MAP_WEIGHT image_dir replacement_stem)
           else mret None))));
  mret (default (None, None) r).

(** *** [run_sextractor] *)

(** Truth value of an optional string: [None] and [EmptyString] are false. *)
Definition truthy (s : option string) : bool :=
  match s with
  | Some v => negb (String.eqb v EmptyString)
  | None => false
  end.

Definition run_sextractor (env : environment)
    (image_path config_file output_dir : string) : M bool :=
  os_makedirs output_dir;;
  let image_name := path_stem image_path in
  let catalog_name := os_path_join output_dir (image_name +:+ ".cat") in
  let check_image_name := os_path_join output_dir (image_name +:+ "_check.fits") in
  let cmd := ["sex"; image_path; "-c"; config_file;
              "-CATALOG_NAME"; catalog_name;
              "-CHECKIMAGE_NAME"; check_image_name] in
  '(weight_type, weight_image) ← find_weight_image image_path;
  let cmd :=
    if truthy weight_type && truthy weight_image
    then cmd ++ ["-WEIGHT_TYPE"; default EmptyString weight_type;
                 "-WEIGHT_IMAGE"; default EmptyString weight_image]
    else cmd in
  print ("Processing: " +:+ image_path);;
  print ("  → Catalog: " +:+ catalog_name);;
  (if truthy weight_type && truthy weight_image
   then print ("  → Weight: " +:+ default EmptyString weight_image
               +:+ " (" +:+ default EmptyString weight_type +:+ ")")
   else mret tt);;
  try_except
    (subprocess_run env cmd;;
     print "  ✓ Success!";;
     mret true)
    (λ e, match e with
          | CalledProcessError stderr =>
              Some (print ("  ✗ ERROR processing " +:+ image_path);;
                    print ("    " +:+ stderr);;
                    mret false)
          | _ => None
          end).

(** *** [main] *)

Definition main (env : environment) : M unit :=
  print (Str.repeat "=" 60);;
  print "Automated SourceExtractor Processing";;
  print (Str.repeat "=" 60);;
  (* Check if SourceExtractor is available *)
  available ← check_sextractor env;
  (if negb available then sys_exit 1 else mret tt);;
  (* Check if config files exist *)
  config ← os_path_exists CONFIG_FILE;
  (if negb config then
     print ("ERROR: Configuration file '" +:+ CONFIG_FILE +:+ "' not found!");;
     sys_exit 1
   else mret tt);;
  param ← os_path_exists PARAM_FILE;
  (if negb param then
     print ("ERROR: Parameter file '" +:+ PARAM_FILE +:+ "' not found!");;
     sys_exit 1
   else mret tt);;
  (* Find all images *)
  print (Str.nl +:+ "Searching for images...");;
  images ← find_images ".";
  (if bool_decide (images = []) then
     print "No FITS images found in current directory!";;
     sys_exit 1
   else mret tt);;
  print ("Found " +:+ pretty (length images) +:+ " image(s):");;
  for_each images (λ img, print ("  - " +:+ img));;
  (* Process each image *)
  print (Str.nl +:+ "Processing images...");;
  print (Str.repeat "-" 60);;
  success_count ← for_fold images 0 (λ image success_count,
                     ok ← run_sextractor env image CONFIG_FILE "catalogs";
                     print EmptyString;;
                     mret (if ok : bool then success_count + 1 else success_count));
  (* Summary *)
  print (Str.repeat "=" 60);;
  print ("SUMMARY: " +:+ pretty success_count +:+ "/" +:+ pretty (length images)
         +:+ " images processed successfully");;
  print (Str.repeat "=" 60);;
  print (Str.nl +:+ "Catalogs saved in './catalogs/' directory").

(** ** The resolver read as an ordered list of candidates

    The spec describes [find_weight_image] as an ordered list of checks,
    the first hit winning.  The definitions below follow that description;
    the resolver embedded above is compared with them. *)

(** The outcome of the resolver: [(None, None)] or [(role, path)]. *)
Definition weight_result : Type := option string * option string.

(** The directory [D] and the stem [S] of a primary image path. *)
Definition image_dir_of (image_path : string) : string :=
  let d := os_path_dirname image_path in if String.eqb d EmptyString then "." else d.

(** The path [D/S<suffix><ext>]. *)
Definition suffix_path (image_path suffix file_ext : string) : string :=
  os_path_join (image_dir_of image_path) (path_stem image_path +:+ suffix +:+ file_ext).

(** The path [D/S'<ext>] where [S'] is [S] with [component] replaced
    by [-name]. *)
Definition replacement_path (image_path component name file_ext : string) : string :=
  os_path_join (image_dir_of image_path)
    (Str.replace component ("-" +:+ name) (path_stem image_path) +:+ file_ext).

(** Suffix-pattern candidates of one role: suffix-major, extension-minor. *)
Definition suffix_candidates (role image_path : string) : list (string * string) :=
  suffix ← WEIGHT_SUFFIXES !!! role;
  file_ext ← FILE_EXTS;
  [(role, suffix_path image_path suffix file_ext)].

(** Substring-replacement candidates of one role; a marker that does not
    occur in the stem contributes none. *)
Definition replacement_candidates (role : string) (names : list string)
    (image_path : string) : list (string * string) :=
  component ← components_to_replace;
  if Str.contains component (path_stem image_path) then
    name ← names;
    file_ext ← FILE_EXTS;
    [(role, replacement_path image_path component name file_ext)]
  else [].

Definition suffix_checks (image_path : string) : list (string * string) :=
  suffix_candidates MAP_RMS image_path ++ suffix_candidates MAP_WEIGHT image_path.

Definition replacement_checks (image_path : string) : list (string * string) :=
  replacement_candidates MAP_RMS uncertainty_names image_path
  ++ replacement_candidates MAP_WEIGHT weight_names image_path.

(** All checks, in the order of the four passes. *)
Definition checks (image_path : string) : list (string * string) :=
  suffix_checks image_path ++ replacement_checks image_path.

(** The first candidate of [cands] that exists in [fs]. *)
Fixpoint first_hit (fs : gset string) (cands : list (string * string))
  : option weight_result :=
  match cands with
  | [] => None
  | (role, path) :: rest =>
      if bool_decide (path ∈ fs) then Some (Some role, Some path)
      else first_hit fs rest
  end.

(** The candidates of [cands] that get tested against [fs]: all up to and
    including the first that exists. *)
Fixpoint probed (fs : gset string) (cands : list (string * string)) : list string :=
  match cands with
  | [] => []
  | (_, path) :: rest =>
      path :: (if bool_decide (path ∈ fs) then [] else probed fs rest)
  end.

(** The paths queried by the run that leads from [w] to [w']. *)
Definition queries (t : list event) : list string :=
  omap (λ e, match e with PathExists p => Some p | _ => None end) t.


(** The lines printed in a trace. *)
Definition printed (t : list event) : list string :=
  omap (λ e, match e with Print l => Some l | _ => None end) t.

(** [c] walks [cands] in order, testing each for existence and returning
    the first that exists; it does nothing else. *)
Definition scans (c : M (option weight_result)) (cands : list (string * string)) : Prop :=
  ∀ w, c w = (inr (first_hit (files w) cands),
              World (files w) (trace w ++ (PathExists <$> probed (files w) cands))).

(** ** Sample directories *)

(** An image with two RMS-style companions and a weight-style one. *)
Definition two_rms_dir : gset string :=
  {[ "./img.fits"; "./img_stddev.fits"; "./img_unc.fits"; "./img_weight.fits" ]}.

(** An image whose only RMS-style companion is [img_unc.FIT]. *)
Definition one_rms_dir : gset string :=
  {[ "./img.fits"; "./img_unc.FIT"; "./img_weight.fits" ]}.

(** An image with a weight-style suffix companion and a file the
    replacement rule would reach. *)
Definition weight_and_replacement_dir : gset string :=
  {[ "./m51-sci.fits"; "./m51-sci_wht.fits"; "./m51-rms.fits" ]}.

(** An image with no companion under any rule. *)
Definition lonely_dir : gset string := {[ "./img.fits"; "./other_unc.fits" ]}.

(** The directory of the spec's example, and the same with the unrelated
    [galaxy_weight.fits] added. *)
Definition galaxy_dir : gset string :=
  {[ "./galaxy-int.fits"; "./galaxy-unc.fits" ]}.
Definition galaxy_dir' : gset string := {[ "./galaxy_weight.fits" ]} ∪ galaxy_dir.

(** ['-' in s] *)
Fixpoint has_dash (s : string) : bool :=
  match s with
  | EmptyString => false
  | String c r => Ascii.eqb c "-" || has_dash r
  end.

(** ** The batch driver read as pure functions of the directory *)

(** The probe [sex --version] of [check_sextractor]. *)
Definition version_probe : list string := ["sex"; "--version"].

(** [check_sextractor] succeeds: the binary is there and the probe
    exits with status 0. *)
Definition probe_ok (env : environment) : bool :=
  sex_installed env && bool_decide (sex_status env version_probe = 0%Z).

(** The images [find_images(directory)] returns in directory state [fs]. *)
Definition discovered_in (directory : string) (fs : gset string) : list string :=
  sorted (ext ← IMAGE_EXTENSIONS; glob_in fs (os_path_join directory ext)).

Definition discovered (fs : gset string) : list string := discovered_in "." fs.






(** The fatal preconditions as [main] tests them: [check_sextractor]
    also fails when the probe runs but exits with a status other than 0. *)
Definition fatal (env : environment) (fs : gset string) : Prop :=
  sex_installed env = false
  ∨ sex_status env version_probe ≠ 0%Z
  ∨ CONFIG_FILE ∉ fs
  ∨ PARAM_FILE ∉ fs
  ∨ discovered fs = [].

(** *** Sample environments and directories *)

(** A tool that is installed and always succeeds. *)
Definition env_ok : environment := Environment true (λ _, 0%Z) (λ _, EmptyString).



(** Both configuration files and three images, one of them the RMS
    companion of another. *)
Definition batch_dir : gset string :=
  {[ "default.sex"; "default.param"; "./a.fits"; "./a_rms.fits"; "./b.fits" ]}.

(** All four checks at the head of [main] pass. *)
Definition passes (env : environment) (fs : gset string) : bool :=
  probe_ok env
  && bool_decide (CONFIG_FILE ∈ fs)
  && bool_decide (PARAM_FILE ∈ fs)
  && negb (bool_decide (discovered fs = [])).


(** [pat] has no wildcard. *)
Fixpoint literal (pat : string) : bool :=
  match pat with
  | EmptyString => true
  | String c pat' => negb (Ascii.eqb c "*") && literal pat'
  end.

(** ** Proof automation *)

(** Closes a decidable goal about concrete data by evaluation. *)
Ltac by_compute := apply (bool_decide_unpack _); vm_compute; exact I.

(** Runs the monad operations that are exposed in the goal. *)
Ltac run_monad :=
  repeat (unfold mbind, M_bind, mret, M_ret; cbn beta iota zeta delta [files trace]).


(** An image whose only companion is a weight-style suffix file. *)
Definition weight_only_dir : gset string :=
  {[ "./img.fits"; "./img_wht.fit" ]}.

(** An image with a marker, no suffix companion, and both an RMS-style
    and a weight-style replacement companion. *)
Definition replacement_dir : gset string :=
  {[ "./m51-sci.fits"; "./m51-weight.fits"; "./m51-sigma.FITS" ]}.


(** * Properties *)

Section monad_facts.
Context {A B : Type}.

Lemma bind_ok (c : M A) (f : A → M B) w a w' :
  c w = (inr a, w') → (c ≫= f) w = f a w'.
Proof. intros H. unfold mbind, M_bind. by rewrite H. Qed.

Lemma bind_raise (c : M A) (f : A → M B) w e w' :
  c w = (inl e, w') → (c ≫= f) w = (inl e, w').
Proof. intros H. unfold mbind, M_bind. by rewrite H. Qed.
End monad_facts.

Lemma first_hit_app fs l1 l2 :
  first_hit fs (l1 ++ l2) =
  match first_hit fs l1 with Some v => Some v | None => first_hit fs l2 end.
Proof.
  induction l1 as [|[role path] l1 IH]; simpl; [done|].
  by case_bool_decide.
Qed.

Lemma probed_app fs l1 l2 :
  probed fs (l1 ++ l2) =
  probed fs l1 ++ match first_hit fs l1 with Some _ => [] | None => probed fs l2 end.
Proof.
  induction l1 as [|[role path] l1 IH]; simpl; [done|].
  case_bool_decide; simpl; [done|]. by rewrite IH.
Qed.

Lemma scans_nil : scans (mret None) [].
Proof. intros [fs t]. unfold mret, M_ret. simpl. by rewrite app_nil_r. Qed.

Lemma scans_or_else c1 c2 l1 l2 :
  scans c1 l1 → scans c2 l2 → scans (or_else c1 c2) (l1 ++ l2).
Proof.
  intros H1 H2 w. unfold or_else.
  rewrite (bind_ok _ _ _ _ _ (H1 w)), first_hit_app, probed_app.
  destruct (first_hit (files w) l1) as [v|].
  - unfold mret, M_ret. by rewrite app_nil_r.
  - rewrite H2. simpl. by rewrite fmap_app, app_assoc.
Qed.

Lemma scans_for_return {X} (xs : list X) body (f : X → list (string * string)) :
  (∀ x, scans (body x) (f x)) → scans (for_return xs body) (xs ≫= f).
Proof.
  intros Hbody. induction xs as [|x xs IH]; simpl.
  - apply scans_nil.
  - apply (scans_or_else _ _ _ _ (Hbody x) IH).
Qed.

Lemma scans_exists role path :
  scans (found ← os_path_exists path;
         if found : bool then mret (Some (Some role, Some path)) else mret None)
        [(role, path)].
Proof.
  intros w. unfold mbind, M_bind, os_path_exists, mret, M_ret. simpl.
  by case_bool_decide.
Qed.

Lemma scans_try_extensions role image_dir base :
  scans (try_extensions role image_dir base)
        (file_ext ← FILE_EXTS; [(role, os_path_join image_dir (base +:+ file_ext))]).
Proof.
  unfold try_extensions. apply scans_for_return. intros e. apply scans_exists.
Qed.

Lemma string_app_cons (x : ascii) (a b : string) :
  String x a +:+ b = String x (a +:+ b).
Proof. reflexivity. Qed.

Lemma string_app_nil_l (b : string) : EmptyString +:+ b = b.
Proof. reflexivity. Qed.

Lemma string_app_assoc (a b c : string) : (a +:+ b) +:+ c = a +:+ b +:+ c.
Proof.
  induction a as [|x a IH]; [done|].
  by rewrite !string_app_cons, IH.
Qed.

Lemma scans_suffix_pass role image_path :
  scans (for_return (WEIGHT_SUFFIXES !!! role) (λ suffix,
           try_extensions role (image_dir_of image_path)
                          (path_stem image_path +:+ suffix)))
        (suffix_candidates role image_path).
Proof.
  unfold suffix_candidates. apply scans_for_return. intros suffix.
  unfold suffix_path.
  replace (file_ext ← FILE_EXTS;
           [(role, os_path_join (image_dir_of image_path)
                     (path_stem image_path +:+ suffix +:+ file_ext))])
    with (file_ext ← FILE_EXTS;
          [(role, os_path_join (image_dir_of image_path)
                    ((path_stem image_path +:+ suffix) +:+ file_ext))]).
  - apply scans_try_extensions.
  - simpl. by rewrite !string_app_assoc.
Qed.

Lemma scans_replacement_pass role names image_path :
  scans (for_return components_to_replace (λ component,
           if Str.contains component (path_stem image_path) then
             for_return names (λ name,
               try_extensions role (image_dir_of image_path)
                 (Str.replace component ("-" +:+ name) (path_stem image_path)))
           else mret None))
        (replacement_candidates role names image_path).
Proof.
  unfold replacement_candidates. apply scans_for_return. intros component.
  destruct (Str.contains component (path_stem image_path)).
  - apply scans_for_return. intros name. apply scans_try_extensions.
  - apply scans_nil.
Qed.

(** The resolver is the ordered scan of [checks]: it returns the first
    candidate that exists and queries exactly the candidates up to it. *)
Lemma find_weight_image_scan image_path w :
  find_weight_image image_path w =
  (inr (default (None, None) (first_hit (files w) (checks image_path))),
   World (files w)
         (trace w ++ (PathExists <$> probed (files w) (checks image_path)))).
Proof.
  unfold find_weight_image. fold (image_dir_of image_path).
  erewrite bind_ok; [reflexivity|].
  unfold checks, suffix_checks, replacement_checks. rewrite <- app_assoc.
  revert w. change (scans ?c ?l) with (scans c l).
  apply scans_or_else; [apply scans_suffix_pass|].
  apply scans_or_else; [apply scans_suffix_pass|].
  apply scans_or_else; apply scans_replacement_pass.
Qed.

(** ** Facts about ordered scans *)

Lemma first_hit_split fs cands l1 role path l2 :
  cands = l1 ++ (role, path) :: l2 →
  Forall (λ c, c.2 ∉ fs) l1 →
  path ∈ fs →
  first_hit fs cands = Some (Some role, Some path)
  ∧ probed fs cands = l1.*2 ++ [path].
Proof.
  intros -> Hl1 Hin. induction Hl1 as [|[r p] l1 Hp _ IH]; simpl in *.
  - by rewrite bool_decide_eq_true_2.
  - rewrite bool_decide_eq_false_2 by done. destruct IH as [-> ->]. done.
Qed.

Lemma first_hit_Some fs cands r :
  first_hit fs cands = Some r →
  ∃ l1 role path l2,
    r = (Some role, Some path) ∧ cands = l1 ++ (role, path) :: l2
    ∧ Forall (λ c, c.2 ∉ fs) l1 ∧ path ∈ fs.
Proof.
  induction cands as [|[role path] cands IH]; simpl; [done|].
  case_bool_decide as Hin.
  - intros [= <-]. by exists [], role, path, cands.
  - intros (l1 & role' & path' & l2 & -> & -> & Hl1 & Hin')%IH.
    exists ((role, path) :: l1), role', path', l2.
    split_and!; [done|done| |done]. by constructor.
Qed.

Lemma first_hit_None fs cands :
  first_hit fs cands = None ↔ Forall (λ c, c.2 ∉ fs) cands.
Proof.
  induction cands as [|[role path] cands IH]; simpl.
  - split; [constructor|done].
  - case_bool_decide as Hin.
    + split; [done|]. by intros [? _]%Forall_cons.
    + rewrite IH. split; [by constructor|]. by intros [_ ?]%Forall_cons.
Qed.

Lemma probed_None fs cands :
  first_hit fs cands = None → probed fs cands = cands.*2.
Proof.
  induction cands as [|[role path] cands IH]; simpl; [done|].
  case_bool_decide; [done|]. intros ?. f_equal. auto.
Qed.

(** The candidates tested are an initial segment of the list. *)
Lemma probed_prefix fs cands :
  probed fs cands = take (length (probed fs cands)) cands.*2.
Proof.
  induction cands as [|[role path] cands IH]; simpl; [done|].
  case_bool_decide; simpl; [by rewrite take_0|]. by f_equal.
Qed.

Lemma probed_length fs cands : length (probed fs cands) ≤ length cands.
Proof.
  induction cands as [|[role path] cands IH]; simpl; [done|].
  case_bool_decide; simpl; lia.
Qed.

Lemma suffix_candidates_role role image_path c :
  c ∈ suffix_candidates role image_path → c.1 = role.
Proof.
  unfold suffix_candidates.
  intros (suffix & (e & ->%list_elem_of_singleton & _)%list_elem_of_bind & _)%list_elem_of_bind.
  done.
Qed.

Lemma replacement_candidates_role role names image_path c :
  c ∈ replacement_candidates role names image_path → c.1 = role.
Proof.
  unfold replacement_candidates.
  intros (component & Hc & _)%list_elem_of_bind.
  destruct (Str.contains component (path_stem image_path)); [|by apply elem_of_nil in Hc].
  apply list_elem_of_bind in Hc as (name & Hc & _).
  apply list_elem_of_bind in Hc as (e & ->%list_elem_of_singleton & _). done.
Qed.

Lemma checks_role image_path c :
  c ∈ checks image_path → c.1 = MAP_RMS ∨ c.1 = MAP_WEIGHT.
Proof.
  unfold checks, suffix_checks, replacement_checks.
  rewrite !elem_of_app.
  intros [[?%suffix_candidates_role|?%suffix_candidates_role]
         |[?%replacement_candidates_role|?%replacement_candidates_role]]; auto.
Qed.

(** Projections of one call of the resolver. *)
Lemma find_weight_image_result image_path w :
  (find_weight_image image_path w).1 =
  inr (default (None, None) (first_hit (files w) (checks image_path))).
Proof. by rewrite find_weight_image_scan. Qed.

Lemma find_weight_image_files image_path w :
  files (find_weight_image image_path w).2 = files w.
Proof. by rewrite find_weight_image_scan. Qed.

Lemma find_weight_image_trace image_path w :
  trace (find_weight_image image_path w).2 =
  trace w ++ (PathExists <$> probed (files w) (checks image_path)).
Proof. by rewrite find_weight_image_scan. Qed.

Lemma first_hit_ext fs fs' cands :
  Forall (λ c, c.2 ∈ fs ↔ c.2 ∈ fs') cands →
  first_hit fs cands = first_hit fs' cands.
Proof.
  induction 1 as [|[role path] cands Hc _ IH]; simpl in *; [done|].
  rewrite IH. by rewrite (bool_decide_ext _ _ Hc).
Qed.

Lemma WEIGHT_SUFFIXES_rms :
  WEIGHT_SUFFIXES !!! MAP_RMS = ["_stddev"; "_stdev"; "_rms"; "_unc"; "_uncert"; "_sigma"].
Proof. reflexivity. Qed.

Lemma WEIGHT_SUFFIXES_weight :
  WEIGHT_SUFFIXES !!! MAP_WEIGHT = ["_weight"; "_wht"; "_wt"; "_ivar"].
Proof. reflexivity. Qed.

Lemma queries_path_exists (l : list string) : queries (PathExists <$> l) = l.
Proof. induction l as [|x l IH]; [done|]. unfold queries in *. simpl. by f_equal. Qed.

(** ** The resolver *)

(** C1 (as stated) fails: with both [img_stddev.fits] and [img_unc.fits]
    present, the file [D/S_unc.fits] exists but the resolver returns
    [D/S_stddev.fits], the first RMS-style candidate in scan order. *)
Lemma rms_hit_not_always_that_path :
  ¬ (∀ (image_path : string) (w : world) (suffix file_ext : string),
       suffix ∈ WEIGHT_SUFFIXES !!! MAP_RMS →
       file_ext ∈ FILE_EXTS →
       suffix_path image_path suffix file_ext ∈ files w →
       (find_weight_image image_path w).1
       = inr (Some "MAP_RMS", Some (suffix_path image_path suffix file_ext))).
Proof.
  intros H.
  specialize (H "./img.fits" (World two_rms_dir []) "_unc" ".fits").
  assert ((find_weight_image "./img.fits" (World two_rms_dir [])).1
          = inr (Some "MAP_RMS", Some "./img_stddev.fits")) as Hrun
    by (vm_compute; reflexivity).
  rewrite Hrun in H.
  assert (inr (Some "MAP_RMS", Some "./img_stddev.fits")
          = (inr (Some "MAP_RMS", Some (suffix_path "./img.fits" "_unc" ".fits"))
             : exn + weight_result)) as Heq.
  { apply H.
    - rewrite WEIGHT_SUFFIXES_rms. set_solver.
    - unfold FILE_EXTS. set_solver.
    - by_compute. }
  vm_compute in Heq. discriminate Heq.
Qed.

(** C1 (amended): if [D/S<suffix><ext>] exists for an RMS suffix token and
    an extension variant, and no RMS-style candidate earlier in the scan
    order (suffix-major, extension-minor) exists, the resolver returns
    [MAP_RMS] paired with exactly that path, whatever weight-style files
    exist. *)
Theorem rms_suffix_first_hit (image_path : string) (w : world)
    (l1 l2 : list (string * string)) (suffix file_ext : string) :
  suffix_candidates MAP_RMS image_path
    = l1 ++ (MAP_RMS, suffix_path image_path suffix file_ext) :: l2 →
  Forall (λ c, c.2 ∉ files w) l1 →
  suffix_path image_path suffix file_ext ∈ files w →
  (find_weight_image image_path w).1
  = inr (Some "MAP_RMS", Some (suffix_path image_path suffix file_ext)).
Proof.
  intros Hsplit Hl1 Hin. rewrite find_weight_image_result.
  unfold checks, suffix_checks. rewrite Hsplit, <- !app_assoc. simpl.
  by destruct (first_hit_split (files w) _ l1 MAP_RMS _
                 (l2 ++ suffix_candidates MAP_WEIGHT image_path
                     ++ replacement_checks image_path) eq_refl Hl1 Hin) as [-> _].
Qed.

Lemma rms_suffix_first_hit_witness :
  (find_weight_image "./img.fits" (World one_rms_dir [])).1
  = inr (Some "MAP_RMS", Some "./img_unc.FIT").
Proof.
  apply (rms_suffix_first_hit "./img.fits" (World one_rms_dir [])
           (take 15 (suffix_candidates MAP_RMS "./img.fits"))
           (drop 16 (suffix_candidates MAP_RMS "./img.fits"))
           "_unc" ".FIT").
  - vm_compute. reflexivity.
  - by_compute.
  - by_compute.
Defined.

(** C2: the existence checks of one call are an initial segment of one
    fixed list that depends on the image path only: the RMS-style suffix
    candidates, then the weight-style suffix candidates, then the
    replacement candidates.  If some suffix-pattern file exists, the
    segment ends within the suffix candidates, so that no replacement
    candidate is even tested, and the result is a suffix candidate. *)
Theorem check_order_fixed (image_path : string) (w : world) :
  let out := find_weight_image image_path w in
  let suffix_pattern :=
    suffix_candidates MAP_RMS image_path ++ suffix_candidates MAP_WEIGHT image_path in
  ∃ n : nat,
    trace out.2
    = trace w ++ (PathExists <$> take n (suffix_pattern ++ replacement_checks image_path).*2)
    ∧ (Exists (λ c, c.2 ∈ files w) suffix_pattern →
       n ≤ length suffix_pattern
       ∧ ∃ role path,
           out.1 = inr (Some role, Some path) ∧ (role, path) ∈ suffix_pattern).
Proof.
  intros out suffix_pattern. subst out.
  exists (length (probed (files w) (checks image_path))).
  rewrite find_weight_image_trace, find_weight_image_result.
  split.
  - f_equal. f_equal. apply probed_prefix.
  - intros Hex. unfold checks. fold suffix_pattern.
    change (suffix_checks image_path) with suffix_pattern.
    destruct (first_hit (files w) suffix_pattern) as [r|] eqn:Hhit.
    + rewrite probed_app, first_hit_app, Hhit, app_nil_r.
      split; [apply probed_length|].
      apply first_hit_Some in Hhit as (l1 & role & path & l2 & -> & Heq & _ & _).
      exists role, path. split; [done|]. rewrite Heq. set_solver.
    + apply first_hit_None in Hhit. apply Exists_exists in Hex as (c & Hc & Hin).
      rewrite Forall_forall in Hhit. by destruct (Hhit c Hc).
Qed.

Lemma check_order_fixed_witness :
  ∃ n : nat,
    n ≤ 40
    ∧ queries (trace (find_weight_image "./m51-sci.fits"
                        (World weight_and_replacement_dir [])).2)
      = take n (checks "./m51-sci.fits").*2
    ∧ (find_weight_image "./m51-sci.fits" (World weight_and_replacement_dir [])).1
      = inr (Some "MAP_WEIGHT", Some "./m51-sci_wht.fits").
Proof.
  destruct (check_order_fixed "./m51-sci.fits" (World weight_and_replacement_dir []))
    as (n & Htrace & Hsuffix).
  destruct Hsuffix as (Hn & role & path & Hout & _).
  { apply (bool_decide_unpack _). vm_compute. exact I. }
  exists n. split; [exact Hn|]. split.
  - rewrite Htrace. apply queries_path_exists.
  - vm_compute. reflexivity.
Defined.

(** C5: when no suffix-pattern candidate exists and no replacement
    candidate exists, which includes every case where the stem contains
    neither ["-int"] nor ["-sci"] and no suffix-pattern candidate exists,
    the resolver returns normally with [(None, None)]. *)
Theorem no_candidate_no_companion (image_path : string) (w : world) :
  Forall (λ c, c.2 ∉ files w) (suffix_checks image_path) →
  Forall (λ c, c.2 ∉ files w) (replacement_checks image_path)
  ∨ (Str.contains "-int" (path_stem image_path) = false
     ∧ Str.contains "-sci" (path_stem image_path) = false) →
  (find_weight_image image_path w).1 = inr (None, None).
Proof.
  intros Hsuffix Hrepl. rewrite find_weight_image_result.
  assert (Forall (λ c, c.2 ∉ files w) (replacement_checks image_path)) as Hrepl'.
  { destruct Hrepl as [?|[Hint Hsci]]; [done|].
    unfold replacement_checks, replacement_candidates, components_to_replace.
    simpl. rewrite Hint, Hsci. simpl. constructor. }
  assert (first_hit (files w) (checks image_path) = None) as ->; [|done].
  apply first_hit_None. unfold checks. by apply Forall_app.
Qed.

Lemma no_candidate_no_companion_witness :
  (find_weight_image "./img.fits" (World lonely_dir [])).1 = inr (None, None)
  ∧ (find_weight_image "./galaxy-int.fits" (World lonely_dir [])).1 = inr (None, None).
Proof.
  split.
  - apply (no_candidate_no_companion "./img.fits" (World lonely_dir [])).
    + by_compute.
    + right. split; vm_compute; reflexivity.
  - apply (no_candidate_no_companion "./galaxy-int.fits" (World lonely_dir [])).
    + by_compute.
    + left. by_compute.
Defined.

(** C6: for the image of stem [galaxy-int] in a directory that contains
    [galaxy-unc.fits] the resolver returns [MAP_RMS] with the path of
    [galaxy-unc.fits]; [galaxy_weight.fits], the weight-style companion
    name of stem [galaxy], is no candidate of [galaxy-int], and adding it
    to any directory leaves the result as it was. *)
Theorem galaxy_example :
  path_stem "./galaxy-int.fits" = "galaxy-int"
  ∧ path_stem "./galaxy.fits" = "galaxy"
  ∧ suffix_path "./galaxy.fits" "_weight" ".fits" = "./galaxy_weight.fits"
  ∧ (find_weight_image "./galaxy-int.fits" (World galaxy_dir [])).1
    = inr (Some "MAP_RMS", Some "./galaxy-unc.fits")
  ∧ (find_weight_image "./galaxy-int.fits" (World galaxy_dir' [])).1
    = inr (Some "MAP_RMS", Some "./galaxy-unc.fits")
  ∧ ("./galaxy_weight.fits" ∉ (checks "./galaxy-int.fits").*2)
  ∧ ∀ w : world,
      (find_weight_image "./galaxy-int.fits"
         (World ({[ "./galaxy_weight.fits" ]} ∪ files w) (trace w))).1
      = (find_weight_image "./galaxy-int.fits" w).1.
Proof.
  split; [vm_compute; reflexivity|].
  split; [vm_compute; reflexivity|].
  split; [vm_compute; reflexivity|].
  split; [vm_compute; reflexivity|].
  split; [vm_compute; reflexivity|].
  assert (Forall (λ c : string * string, c.2 ≠ "./galaxy_weight.fits")
                 (checks "./galaxy-int.fits")) as Hne by by_compute.
  split.
  - intros (c & Heq & Hin)%list_elem_of_fmap.
    rewrite Forall_forall in Hne. by apply (Hne c Hin).
  - intros w. rewrite !find_weight_image_result.
    change (files (World ?fs ?t)) with fs.
    f_equal. f_equal. apply first_hit_ext.
    eapply Forall_impl; [exact Hne|]. intros c Hc.
    cbv beta in Hc. rewrite elem_of_union, elem_of_singleton.
    split; [intros [?|?]; [contradiction|assumption]|intros ?; by right].
Qed.

(** C7: the resolver returns either [(None, None)] or a role together
    with a path; the role is then ["MAP_RMS"] or ["MAP_WEIGHT"], and the
    path is the one the last existence check of the call was made on, a
    check that succeeded. *)
Theorem find_weight_image_well_formed (image_path : string) (w : world) :
  let out := find_weight_image image_path w in
  out.1 = inr (None, None)
  ∨ ∃ role path,
      out.1 = inr (Some role, Some path)
      ∧ (role = "MAP_RMS" ∨ role = "MAP_WEIGHT")
      ∧ path ∈ files w
      ∧ ∃ earlier,
          trace out.2 = trace w ++ (PathExists <$> earlier) ++ [PathExists path].
Proof.
  intros out. subst out.
  rewrite find_weight_image_result, find_weight_image_trace.
  destruct (first_hit (files w) (checks image_path)) as [r|] eqn:Hhit; [right|by left].
  apply first_hit_Some in Hhit as (l1 & role & path & l2 & -> & Heq & Hl1 & Hin).
  exists role, path. split_and!; [done| |done|].
  - apply (checks_role image_path (role, path)). rewrite Heq. set_solver.
  - exists l1.*2.
    destruct (first_hit_split _ _ _ _ _ _ Heq Hl1 Hin) as [_ ->].
    by rewrite fmap_app.
Qed.

(** C9: a call of the resolver leaves the set of existing files as it
    was, and everything it does to the world is a sequence of existence
    queries. *)
Theorem find_weight_image_read_only (image_path : string) (w : world) :
  let out := find_weight_image image_path w in
  files out.2 = files w
  ∧ ∃ paths, out.2 = World (files w) (trace w ++ (PathExists <$> paths)).
Proof.
  intros out. subst out. rewrite find_weight_image_scan. simpl.
  split; [done|]. by eexists.
Qed.

(** ** [str.replace] on the markers of the script *)

Lemma prefix_cons (a b : ascii) (p s : string) :
  String.prefix (String a p) (String b s) = Ascii.eqb a b && String.prefix p s.
Proof.
  simpl. destruct (Ascii.ascii_dec a b) as [->|Hne].
  - by rewrite Ascii.eqb_refl.
  - apply Ascii.eqb_neq in Hne. by rewrite Hne.
Qed.



Lemma replace_cons (old new : string) (c : ascii) (r : string) :
  Str.replace old new (String c r) =
  if String.prefix old (String c r)
  then new +:+ Str.replace_from old new (String.length old - 1) r
  else String c (Str.replace old new r).
Proof. reflexivity. Qed.

Lemma contains_cons (sub : string) (c : ascii) (r : string) :
  Str.contains sub (String c r)
  = String.prefix sub (String c r) || Str.contains sub r.
Proof. reflexivity. Qed.

Section dash_marker.
(** A marker ["-" ++ o] replaced by ["-" ++ n], where neither [o] nor
    [n] contains a dash and [o] does not start any extension of [n]. *)
Variables o n : string.
Hypothesis o_dash_free : has_dash o = false.
Hypothesis n_dash_free : has_dash n = false.
Hypothesis n_not_o : ∀ t, String.prefix o (n +:+ t) = false.

Let old := String "-" o.
Let new := String "-" n.

(** A dash-free text at the head of the output was at the head of
    the input. *)
Lemma replace_dash_free_prefix (p : string) :
  has_dash p = false →
  ∀ s, String.prefix p (Str.replace old new s) = true → String.prefix p s = true.
Proof.
  induction p as [|x p IH]; intros Hp s; [by destruct s|].
  simpl in Hp. apply orb_false_iff in Hp as [Hx Hp].
  destruct s as [|c r]; [done|]. rewrite replace_cons.
  destruct (String.prefix old (String c r)) eqn:Hpre.
  - unfold new. rewrite string_app_cons, prefix_cons, Hx. done.
  - rewrite !prefix_cons. intros [-> Hr]%andb_true_iff.
    rewrite (IH Hp r Hr). done.
Qed.

Lemma contains_skip_dash_free (p t : string) :
  has_dash p = false → Str.contains old (p +:+ t) = Str.contains old t.
Proof.
  induction p as [|x p IH]; intros Hp; [done|].
  simpl in Hp. apply orb_false_iff in Hp as [Hx Hp].
  rewrite string_app_cons, contains_cons.
  unfold old at 1. rewrite prefix_cons.
  rewrite Ascii.eqb_sym, Hx. by apply IH.
Qed.

(** No occurrence of the marker is left, wherever the scan stands. *)
Lemma replace_from_no_marker (s : string) (k : nat) :
  Str.contains old (Str.replace_from old new k s) = false.
Proof.
  revert k. induction s as [|c r IH]; intros k; [by destruct k|].
  destruct k as [|k]; [|apply IH].
  change (Str.replace_from old new 0 (String c r))
    with (Str.replace old new (String c r)).
  rewrite replace_cons.
  destruct (String.prefix old (String c r)) eqn:Hpre.
  - unfold new. rewrite string_app_cons, contains_cons.
    unfold old at 1. rewrite prefix_cons, Ascii.eqb_refl, n_not_o.
    rewrite contains_skip_dash_free by done. apply IH.
  - rewrite contains_cons.
    change (Str.replace old new r) with (Str.replace_from old new 0 r) at 2.
    rewrite (IH 0), orb_false_r.
    destruct (String.prefix old (String c (Str.replace old new r))) eqn:Hout; [|done].
    unfold old in Hpre, Hout. rewrite prefix_cons in Hpre, Hout.
    apply andb_true_iff in Hout as [Hc Hr].
    apply replace_dash_free_prefix in Hr; [|done].
    by rewrite Hc, Hr in Hpre.
Qed.





End dash_marker.


(** The markers and the replacement names of the script meet the
    conditions of the section above. *)
Lemma script_markers (component name : string) :
  component ∈ components_to_replace →
  name ∈ uncertainty_names ++ weight_names →
  ∃ o, component = String "-" o
       ∧ has_dash o = false ∧ has_dash name = false
       ∧ ∀ t, String.prefix o (name +:+ t) = false.
Proof.
  unfold components_to_replace, uncertainty_names, weight_names.
  rewrite !elem_of_cons, elem_of_nil. simpl app.
  rewrite !elem_of_cons, elem_of_nil.
  intros Hc Hn.
  repeat match goal with H : _ ∨ _ |- _ => destruct H as [->|H] end;
    try contradiction;
    (eexists; split; [reflexivity|]; split_and!; [reflexivity|reflexivity|];
     intros t; reflexivity).
Qed.

(** No occurrence of a marker of the script is left after its
    replacement. *)
Lemma replacement_replaces_marker (component name : string) :
  component ∈ components_to_replace →
  name ∈ uncertainty_names ++ weight_names →
  ∀ stem, Str.contains component (Str.replace component ("-" +:+ name) stem) = false.
Proof.
  intros Hc Hn stem.
  destruct (script_markers component name Hc Hn) as (o & -> & Ho & Hname & Hdiff).
  apply (replace_from_no_marker o name Ho Hname Hdiff stem 0).
Qed.



(** A stem with two markers: the RMS replacement candidates of
    [a-int-b-int.fits], in the order they are tested. *)
Example replacement_candidates_two_markers :
  (replacement_candidates MAP_RMS uncertainty_names "./a-int-b-int.fits").*2
  = [ "./a-unc-b-unc.fits"; "./a-unc-b-unc.fit";
      "./a-unc-b-unc.FITS"; "./a-unc-b-unc.FIT";
      "./a-stddev-b-stddev.fits"; "./a-stddev-b-stddev.fit";
      "./a-stddev-b-stddev.FITS"; "./a-stddev-b-stddev.FIT";
      "./a-stdev-b-stdev.fits"; "./a-stdev-b-stdev.fit";
      "./a-stdev-b-stdev.FITS"; "./a-stdev-b-stdev.FIT";
      "./a-rms-b-rms.fits"; "./a-rms-b-rms.fit";
      "./a-rms-b-rms.FITS"; "./a-rms-b-rms.FIT";
      "./a-uncert-b-uncert.fits"; "./a-uncert-b-uncert.fit";
      "./a-uncert-b-uncert.FITS"; "./a-uncert-b-uncert.FIT";
      "./a-sigma-b-sigma.fits"; "./a-sigma-b-sigma.fit";
      "./a-sigma-b-sigma.FITS"; "./a-sigma-b-sigma.FIT" ].
Proof. vm_compute. reflexivity. Qed.

(** ** The batch driver *)

Section stepping.
Context {B : Type}.

Lemma bind_ret {A} (a : A) (f : A → M B) w : (mret a ≫= f) w = f a w.
Proof. reflexivity. Qed.

Lemma bind_sys_exit {A} (code : Z) (f : A → M B) w :
  (sys_exit code ≫= f) w = (inl (SystemExit code), w).
Proof. reflexivity. Qed.

Lemma bind_print (line : string) (f : unit → M B) w :
  (print line ≫= f) w = f tt (World (files w) (trace w ++ [Print line])).
Proof. reflexivity. Qed.

Lemma bind_exists (path : string) (f : bool → M B) w :
  (os_path_exists path ≫= f) w
  = f (bool_decide (path ∈ files w))
      (World (files w) (trace w ++ [PathExists path])).
Proof. reflexivity. Qed.

Lemma bind_makedirs (path : string) (f : unit → M B) w :
  (os_makedirs path ≫= f) w
  = f tt (World ({[path]} ∪ files w) (trace w ++ [Makedirs path])).
Proof. reflexivity. Qed.

Lemma bind_assoc {A A'} (c : M A) (g : A → M A') (f : A' → M B) w :
  ((c ≫= g) ≫= f) w = (c ≫= λ a, g a ≫= f) w.
Proof. unfold mbind, M_bind. by destruct (c w) as [[e|a] w']. Qed.
End stepping.

Lemma check_sextractor_run env w :
  check_sextractor env w =
  (inr (probe_ok env),
   World (files w)
         (trace w ++ Run version_probe ::
            (if probe_ok env then []
             else [Print "ERROR: SourceExtractor (sex) not found!";
                   Print "Please install SExtractor first."]))).
Proof.
  unfold check_sextractor, try_except, probe_ok, mbind, M_bind, subprocess_run.
  fold version_probe.
  destruct (sex_installed env); simpl; [case_bool_decide; simpl|];
    rewrite <- ?app_assoc; reflexivity.
Qed.

Lemma find_images_run directory w :
  find_images directory w =
  (inr (discovered_in directory (files w)),
   World (files w)
         (trace w ++ (Glob <$> (os_path_join directory <$> IMAGE_EXTENSIONS)))).
Proof.
  unfold find_images, discovered_in, IMAGE_EXTENSIONS, glob_glob.
  cbn [for_fold]. run_monad.
  cbn [fmap list_fmap mbind list_bind app].
  rewrite <- !app_assoc, app_nil_r. reflexivity.
Qed.






(** Without the binary the launch raises [FileNotFoundError], which
    [run_sextractor] does not handle. *)
Lemma run_sextractor_not_installed env image_path config_file output_dir w :
  sex_installed env = false →
  (run_sextractor env image_path config_file output_dir w).1 = inl FileNotFoundError.
Proof.
  intros Hinst. unfold run_sextractor.
  rewrite bind_makedirs.
  erewrite bind_ok by apply find_weight_image_scan.
  cbn [files trace].
  destruct (default (None, None) (first_hit _ (checks image_path)))
    as [weight_type weight_image].
  rewrite !bind_print.
  destruct (truthy weight_type && truthy weight_image);
    rewrite ?bind_print, ?bind_ret;
    unfold try_except, subprocess_run; run_monad; rewrite Hinst; reflexivity.
Qed.


Lemma filter_length_le {A} (f : A → bool) (l : list A) :
  length (List.filter f l) ≤ length l.
Proof. induction l as [|x l IH]; simpl; [done|]. destruct (f x); simpl; lia. Qed.


Lemma fatal_iff_not_passes env fs : fatal env fs ↔ passes env fs = false.
Proof.
  unfold fatal, passes, probe_ok.
  destruct (sex_installed env); [|by split; [|left]].
  repeat case_bool_decide; cbn [andb negb]; intuition congruence.
Qed.



(** ** Paths of discovered images and of their candidates *)

Lemma string_app_nil_r (s : string) : s +:+ EmptyString = s.
Proof. induction s as [|c s IH]; [done|]. by rewrite string_app_cons, IH. Qed.

Lemma string_length_app (a b : string) :
  String.length (a +:+ b) = String.length a + String.length b.
Proof. induction a as [|c a IH]; [done|]. rewrite string_app_cons. simpl. by rewrite IH. Qed.

Lemma endswith_refl (e : string) : Str.endswith e e = true.
Proof. destruct e; simpl; by rewrite ?Ascii.eqb_refl, ?String.eqb_refl. Qed.

Lemma endswith_cons (e : string) (c : ascii) (s : string) :
  Str.endswith e (String c s) = String.eqb e (String c s) || Str.endswith e s.
Proof. reflexivity. Qed.

Lemma endswith_app_r (e a b : string) :
  Str.endswith e b = true → Str.endswith e (a +:+ b) = true.
Proof.
  intros Hb. induction a as [|c a IH]; [done|].
  rewrite string_app_cons, endswith_cons, IH. apply orb_true_r.
Qed.

Lemma endswith_split (e n : string) :
  Str.endswith e n = true → ∃ s, n = s +:+ e.
Proof.
  induction n as [|c n IH].
  - simpl. rewrite orb_false_r. intros ->%String.eqb_eq. by exists EmptyString.
  - rewrite endswith_cons. intros [->%String.eqb_eq|Hn]%orb_true_iff.
    + by exists EmptyString.
    + destruct (IH Hn) as [s ->]. by exists (String c s).
Qed.

Lemma fnmatch_literal (pat name : string) :
  literal pat = true → fnmatch pat name = String.eqb pat name.
Proof.
  revert name. induction pat as [|c pat IH]; intros name Hlit.
  - by destruct name.
  - simpl in Hlit. apply andb_true_iff in Hlit as [Hc Hlit].
    apply negb_true_iff in Hc. simpl. rewrite Hc.
    destruct name as [|d name]; [done|]. by rewrite IH.
Qed.

Lemma fnmatch_star (e name : string) :
  literal e = true → fnmatch (String "*" e) name = Str.endswith e name.
Proof.
  intros Hlit. cbn [fnmatch]. rewrite Ascii.eqb_refl.
  induction name as [|c name IH].
  - rewrite fnmatch_literal by done. simpl. by rewrite !orb_false_r.
  - rewrite fnmatch_literal by done. rewrite endswith_cons. by rewrite <- IH.
Qed.

Lemma has_sep_app (a b : string) :
  Str.has_sep (a +:+ b) = Str.has_sep a || Str.has_sep b.
Proof.
  induction a as [|c a IH]; [done|].
  rewrite string_app_cons. simpl. by rewrite IH, orb_assoc.
Qed.

Lemma has_sep_replace_from (old new : string) (k : nat) (s : string) :
  Str.has_sep new = false → Str.has_sep s = false →
  Str.has_sep (Str.replace_from old new k s) = false.
Proof.
  intros Hnew. revert k. induction s as [|c r IH]; intros k Hs; [done|].
  simpl in Hs. apply orb_false_iff in Hs as [Hc Hr].
  destruct k as [|k]; [|by apply IH]. cbn [Str.replace_from].
  destruct (String.prefix old (String c r)).
  - by rewrite has_sep_app, Hnew, IH.
  - simpl. by rewrite Hc, IH.
Qed.

Lemma split_sep_no_sep (n : string) :
  Str.has_sep n = false → Str.split_sep n = [n].
Proof.
  induction n as [|c n IH]; [done|]. simpl.
  intros [Hc Hn]%orb_false_iff. by rewrite Hc, IH.
Qed.

Lemma upto_last_sep_no_sep (n : string) :
  Str.has_sep n = false → Str.upto_last_sep n = EmptyString.
Proof. destruct n as [|c n]; [done|]. intros Hn. cbn [Str.upto_last_sep]. by rewrite Hn. Qed.

Lemma rfind_app (c : ascii) (a b : string) (i : nat) :
  Str.rfind c b = Some i → Str.rfind c (a +:+ b) = Some (String.length a + i).
Proof.
  intros Hb. induction a as [|x a IH]; [done|].
  rewrite string_app_cons. simpl. by rewrite IH.
Qed.

Lemma substring_app (a b : string) : String.substring 0 (String.length a) (a +:+ b) = a.
Proof.
  induction a as [|x a IH]; [by destruct b|].
  rewrite string_app_cons. simpl. by rewrite IH.
Qed.

Lemma startswith_sep_has_sep (s : string) :
  Str.has_sep s = false → Str.startswith "/" s = false.
Proof.
  destruct s as [|c s]; [done|]. intros Hs. simpl in Hs.
  apply orb_false_iff in Hs as [Hc _].
  unfold Str.startswith. by rewrite prefix_cons, Ascii.eqb_sym, Hc.
Qed.

Lemma join_dot (x : string) :
  Str.has_sep x = false → os_path_join "." x = "./" +:+ x.
Proof.
  intros Hx. unfold os_path_join. by rewrite startswith_sep_has_sep.
Qed.

Lemma strip_prefix_Some (pre s n : string) :
  strip_prefix pre s = Some n ↔ s = pre +:+ n.
Proof.
  revert s. induction pre as [|a pre IH]; intros s.
  - cbn [strip_prefix]. rewrite string_app_nil_l. split; congruence.
  - destruct s as [|b s]; cbn [strip_prefix]; rewrite string_app_cons; [done|].
    destruct (Ascii.eqb_spec a b) as [->|Hne].
    + rewrite IH. split; congruence.
    + split; [done|]. congruence.
Qed.

(** The entries of the working directory are the paths [./name] with a
    non-empty [name] of one component. *)
Lemma entry_in_dot (path name : string) :
  entry_in "." path = Some name
  ↔ path = "./" +:+ name ∧ name ≠ EmptyString ∧ Str.has_sep name = false.
Proof.
  unfold entry_in. change (os_path_join "." EmptyString) with "./".
  destruct (strip_prefix "./" path) as [n|] eqn:Hstrip; cbn [mbind option_bind].
  - apply strip_prefix_Some in Hstrip as ->.
    destruct (String.eqb_spec n EmptyString) as [->|Hne]; cbn [negb andb].
    + split; [done|]. intros (Heq%(inj (String.app "./")) & Hne & _). by subst.
    + destruct (Str.has_sep n) eqn:Hsep; cbn [negb].
      * split; [done|]. intros (Heq%(inj (String.app "./")) & _ & Hn).
        subst. congruence.
      * split; [by intros [= ->]|].
        intros (Heq%(inj (String.app "./")) & _). by subst.
  - split; [done|]. intros (-> & _).
    by rewrite (proj2 (strip_prefix_Some "./" _ name) eq_refl) in Hstrip.
Qed.

Lemma image_pattern_shape (pattern : string) :
  pattern ∈ IMAGE_EXTENSIONS ↔
  ∃ e, e ∈ FILE_EXTS ∧ pattern = String "*" e.
Proof.
  unfold IMAGE_EXTENSIONS, FILE_EXTS. rewrite !elem_of_cons, elem_of_nil. split.
  - intros [->|[->|[->|[->|[]]]]]; eexists; (split; [|reflexivity]);
      rewrite !elem_of_cons; auto.
  - intros (e & He & ->). rewrite !elem_of_cons, elem_of_nil in He.
    destruct He as [->|[->|[->|[->|[]]]]]; auto.
Qed.

(** What the four extensions have in common. *)
Lemma file_ext_facts (e : string) :
  e ∈ FILE_EXTS →
  literal e = true ∧ Str.has_sep e = false ∧ Str.rfind "." e = Some 0
  ∧ 2 ≤ String.length e
  ∧ os_path_dirname (os_path_join "." (String "*" e)) = "."
  ∧ Str.drop (String.length (Str.upto_last_sep (os_path_join "." (String "*" e))))
             (os_path_join "." (String "*" e)) = String "*" e.
Proof.
  unfold FILE_EXTS. rewrite !elem_of_cons, elem_of_nil.
  intros [->|[->|[->|[->|[]]]]]; split_and!; try reflexivity; simpl; lia.
Qed.

(** The matches of one of the four patterns in the working directory. *)
Lemma elem_of_glob_images (fs : gset string) (pattern c : string) :
  pattern ∈ IMAGE_EXTENSIONS →
  c ∈ glob_in fs (os_path_join "." pattern)
  ↔ ∃ name, c = "./" +:+ name ∧ c ∈ fs ∧ name ≠ EmptyString ∧ Str.has_sep name = false
            ∧ ishidden name = false ∧ fnmatch pattern name = true.
Proof.
  intros (e & He & ->)%image_pattern_shape.
  destruct (file_ext_facts e He) as (_ & _ & _ & _ & Hdir & Hbase).
  unfold glob_in. rewrite Hdir, Hbase.
  change (ishidden (String "*" e)) with false. cbn [orb].
  rewrite list_elem_of_fmap. split.
  - intros (name & -> & Hin). apply list_elem_of_In, filter_In in Hin as [Hin Hf].
    apply list_elem_of_In in Hin. unfold listdir in Hin.
    apply list_elem_of_omap in Hin as (path & Hpath & Hentry).
    apply elem_of_elements in Hpath.
    apply entry_in_dot in Hentry as (-> & Hne & Hsep).
    apply andb_true_iff in Hf as [Hhid%negb_true_iff Hmatch].
    exists name. by rewrite join_dot.
  - intros (name & -> & Hin & Hne & Hsep & Hhid & Hmatch).
    exists name. split; [by rewrite join_dot|].
    apply list_elem_of_In, filter_In. split.
    + apply list_elem_of_In. unfold listdir. apply list_elem_of_omap.
      exists ("./" +:+ name). split; [by apply elem_of_elements|].
      by apply entry_in_dot.
    + by rewrite Hhid, Hmatch.
Qed.

(** The discovered images are the entries of the working directory that
    match one of the four patterns. *)
Lemma elem_of_discovered (fs : gset string) (c : string) :
  c ∈ discovered fs
  ↔ ∃ pattern name,
      pattern ∈ IMAGE_EXTENSIONS ∧ c = "./" +:+ name ∧ c ∈ fs ∧ name ≠ EmptyString
      ∧ Str.has_sep name = false ∧ ishidden name = false
      ∧ fnmatch pattern name = true.
Proof.
  unfold discovered, discovered_in, sorted.
  rewrite merge_sort_Permutation, list_elem_of_bind. split.
  - intros (pattern & Hc & Hp). exists pattern.
    apply (elem_of_glob_images fs pattern c Hp) in Hc as (name & ?). by exists name.
  - intros (pattern & name & Hp & H). exists pattern. split; [|done].
    apply (elem_of_glob_images fs pattern c Hp). by exists name.
Qed.

Lemma split_sep_cons (c : ascii) (r : string) :
  Str.split_sep (String c r) =
  if Ascii.eqb c "/" then EmptyString :: Str.split_sep r
  else match Str.split_sep r with
       | x :: xs => String c x :: xs
       | [] => [String c EmptyString]
       end.
Proof. reflexivity. Qed.

Lemma path_name_dot (name : string) :
  Str.has_sep name = false → name ≠ EmptyString → name ≠ "." →
  path_name ("./" +:+ name) = name.
Proof.
  intros Hsep Hne Hdot. unfold path_name.
  change ("./" +:+ name) with (String "." (String "/" name)).
  rewrite !split_sep_cons, split_sep_no_sep by done.
  change (Ascii.eqb "." "/") with false. change (Ascii.eqb "/" "/") with true.
  cbn [List.filter]. change (String.eqb "." EmptyString) with false.
  change (String.eqb "." ".") with true. cbn [negb andb].
  change (String.eqb EmptyString EmptyString) with true. cbn [negb andb].
  apply String.eqb_neq in Hne, Hdot. by rewrite Hne, Hdot.
Qed.

Lemma image_dir_dot (name : string) :
  Str.has_sep name = false → image_dir_of ("./" +:+ name) = ".".
Proof.
  intros Hsep. unfold image_dir_of, os_path_dirname.
  change ("./" +:+ name) with (String "." (String "/" name)).
  assert (Str.upto_last_sep (String "." (String "/" name)) = "./") as ->; [|done].
  cbn [Str.upto_last_sep Str.has_sep].
  change (Ascii.eqb "." "/") with false. change (Ascii.eqb "/" "/") with true.
  cbn [orb]. by rewrite upto_last_sep_no_sep.
Qed.

Lemma ishidden_app (s t : string) : s ≠ EmptyString → ishidden (s +:+ t) = ishidden s.
Proof.
  destruct s as [|c s]; [done|]. intros _. unfold ishidden, Str.startswith.
  rewrite string_app_cons, !prefix_cons. by destruct (s +:+ t), s.
Qed.

(** The name of a discovered image splits into a visible, non-empty stem
    and one of the four extensions; its directory is ["."]. *)
Lemma discovered_name_stem (name e : string) :
  e ∈ FILE_EXTS →
  Str.endswith e name = true → ishidden name = false → Str.has_sep name = false →
  ∃ s, name = s +:+ e ∧ s ≠ EmptyString ∧ ishidden s = false ∧ Str.has_sep s = false
       ∧ path_stem ("./" +:+ name) = s.
Proof.
  intros He Hend Hhid Hsep.
  destruct (file_ext_facts e He) as (_ & _ & Hdot & Hlen & _).
  apply endswith_split in Hend as [s ->]. exists s.
  assert (s ≠ EmptyString) as Hs.
  { intros ->. rewrite string_app_nil_l in Hhid.
    unfold FILE_EXTS in He. rewrite !elem_of_cons, elem_of_nil in He.
    by destruct He as [->|[->|[->|[->|[]]]]]. }
  rewrite ishidden_app in Hhid by done.
  rewrite has_sep_app in Hsep. apply orb_false_iff in Hsep as [Hsep He'].
  split_and!; [done..|].
  unfold path_stem. rewrite path_name_dot.
  - rewrite (rfind_app _ _ _ _ Hdot), Nat.add_0_r, string_length_app.
    assert (0 < String.length s) by (destruct s; [done|simpl; lia]).
    assert ((0 <? String.length s) = true) as -> by by apply Nat.ltb_lt.
    assert ((String.length s <? String.length s + String.length e - 1) = true)
      as -> by (apply Nat.ltb_lt; lia).
    apply substring_app.
  - by rewrite has_sep_app, Hsep, He'.
  - by destruct s.
  - intros Heq. apply (f_equal String.length) in Heq.
    rewrite string_length_app in Heq. simpl in Heq.
    assert (0 < String.length s) by (destruct s; [done|simpl; lia]). lia.
Qed.

Lemma suffix_candidates_shape role image_path c :
  c ∈ suffix_candidates role image_path →
  ∃ suffix e, suffix ∈ WEIGHT_SUFFIXES !!! role ∧ e ∈ FILE_EXTS
              ∧ c = (role, suffix_path image_path suffix e).
Proof.
  unfold suffix_candidates.
  intros (suffix & (e & ->%list_elem_of_singleton & He)%list_elem_of_bind & Hs)%list_elem_of_bind.
  by exists suffix, e.
Qed.

Lemma replacement_candidates_shape role names image_path c :
  c ∈ replacement_candidates role names image_path →
  ∃ component name e,
    component ∈ components_to_replace ∧ name ∈ names ∧ e ∈ FILE_EXTS
    ∧ c = (role, replacement_path image_path component name e).
Proof.
  unfold replacement_candidates.
  intros (component & Hc & Hcomp)%list_elem_of_bind.
  destruct (Str.contains component (path_stem image_path)); [|by apply elem_of_nil in Hc].
  apply list_elem_of_bind in Hc as (name & Hc & Hname).
  apply list_elem_of_bind in Hc as (e & ->%list_elem_of_singleton & He).
  by exists component, name, e.
Qed.








Lemma printed_app t1 t2 : printed (t1 ++ t2) = printed t1 ++ printed t2.
Proof. apply omap_app. Qed.


(** ** The batch driver: exit status and coverage *)










(** * Further properties of the script *)

(** ** The resolver beyond the first pass *)

(** The resolver returns the first candidate of the four passes that
    exists, with the role of the pass it belongs to. *)
Lemma first_existing_check (image_path : string) (w : world)
    (l1 l2 : list (string * string)) (role path : string) :
  checks image_path = l1 ++ (role, path) :: l2 →
  Forall (λ c, c.2 ∉ files w) l1 →
  path ∈ files w →
  (find_weight_image image_path w).1 = inr (Some role, Some path).
Proof.
  intros Hsplit Hl1 Hin. rewrite find_weight_image_result.
  by destruct (first_hit_split (files w) _ l1 role path l2 Hsplit Hl1 Hin) as [-> _].
Qed.

(** When no RMS-style suffix candidate exists, the first weight-style
    suffix candidate that exists is returned with [MAP_WEIGHT], whatever
    the replacement rule would find. *)
Theorem weight_suffix_hit (image_path : string) (w : world)
    (l1 l2 : list (string * string)) (suffix file_ext : string) :
  suffix_candidates MAP_WEIGHT image_path
    = l1 ++ (MAP_WEIGHT, suffix_path image_path suffix file_ext) :: l2 →
  Forall (λ c, c.2 ∉ files w) (suffix_candidates MAP_RMS image_path) →
  Forall (λ c, c.2 ∉ files w) l1 →
  suffix_path image_path suffix file_ext ∈ files w →
  (find_weight_image image_path w).1
  = inr (Some "MAP_WEIGHT", Some (suffix_path image_path suffix file_ext)).
Proof.
  intros Hsplit Hrms Hl1 Hin.
  apply (first_existing_check image_path w
           (suffix_candidates MAP_RMS image_path ++ l1)
           (l2 ++ replacement_checks image_path)); [|by apply Forall_app|done].
  unfold checks, suffix_checks. rewrite Hsplit, <- !app_assoc. reflexivity.
Qed.

Lemma weight_suffix_hit_witness :
  (find_weight_image "./img.fits" (World weight_only_dir [])).1
  = inr (Some "MAP_WEIGHT", Some "./img_wht.fit").
Proof.
  apply (weight_suffix_hit "./img.fits" (World weight_only_dir [])
           (take 5 (suffix_candidates MAP_WEIGHT "./img.fits"))
           (drop 6 (suffix_candidates MAP_WEIGHT "./img.fits"))
           "_wht" ".fit").
  - vm_compute. reflexivity.
  - by_compute.
  - by_compute.
  - by_compute.
Defined.

(** When no suffix-pattern candidate exists, the first replacement
    candidate that exists is returned with its role; the RMS-style names
    are tried for every marker before any weight-style name, so an
    RMS-style replacement file wins over a weight-style one. *)
Theorem replacement_hit (image_path : string) (w : world)
    (l1 l2 : list (string * string)) (role path : string) :
  replacement_candidates MAP_RMS uncertainty_names image_path
  ++ replacement_candidates MAP_WEIGHT weight_names image_path
    = l1 ++ (role, path) :: l2 →
  Forall (λ c, c.2 ∉ files w) (suffix_checks image_path) →
  Forall (λ c, c.2 ∉ files w) l1 →
  path ∈ files w →
  (find_weight_image image_path w).1 = inr (Some role, Some path)
  ∧ (Exists (λ c, c.2 ∈ files w)
       (replacement_candidates MAP_RMS uncertainty_names image_path) →
     role = "MAP_RMS").
Proof.
  intros Hsplit Hsuffix Hl1 Hin. split.
  - apply (first_existing_check image_path w (suffix_checks image_path ++ l1) l2);
      [|by apply Forall_app|done].
    unfold checks, replacement_checks. rewrite Hsplit, <- !app_assoc. reflexivity.
  - intros (c & Hc & Hcin)%Exists_exists.
    assert ((role, path) ∈ replacement_candidates MAP_RMS uncertainty_names image_path)
      as Hrole; [|by apply replacement_candidates_role in Hrole].
    assert (first_hit (files w)
              (replacement_candidates MAP_RMS uncertainty_names image_path
               ++ replacement_candidates MAP_WEIGHT weight_names image_path)
            = Some (Some role, Some path)) as Hhit.
    { by destruct (first_hit_split (files w) _ l1 role path l2 Hsplit Hl1 Hin). }
    rewrite first_hit_app in Hhit.
    destruct (first_hit (files w)
                (replacement_candidates MAP_RMS uncertainty_names image_path))
      as [r|] eqn:Hrms.
    + injection Hhit as ->.
      apply first_hit_Some in Hrms as (k1 & role' & path' & k2 & Heq & -> & _).
      injection Heq as -> ->. apply elem_of_app. right. apply elem_of_cons. by left.
    + apply first_hit_None in Hrms. rewrite Forall_forall in Hrms.
      by destruct (Hrms c Hc).
Qed.

Lemma replacement_hit_witness :
  (find_weight_image "./m51-sci.fits" (World replacement_dir [])).1
  = inr (Some "MAP_RMS", Some "./m51-sigma.FITS").
Proof.
  apply (replacement_hit "./m51-sci.fits" (World replacement_dir [])
           (take 22 (replacement_checks "./m51-sci.fits"))
           (drop 23 (replacement_checks "./m51-sci.fits"))
           "MAP_RMS" "./m51-sigma.FITS").
  - vm_compute. reflexivity.
  - by_compute.
  - by_compute.
  - by_compute.
Defined.

(** The result of the resolver depends on the file system only through
    the existence of its candidates: two directory states that agree on
    every candidate path give the same result. *)
Theorem resolver_depends_on_candidates_only (image_path : string) (w w' : world) :
  Forall (λ c, c.2 ∈ files w ↔ c.2 ∈ files w') (checks image_path) →
  (find_weight_image image_path w).1 = (find_weight_image image_path w').1.
Proof.
  intros Hagree. rewrite !find_weight_image_result.
  by rewrite (first_hit_ext _ _ _ Hagree).
Qed.

Lemma resolver_depends_on_candidates_only_witness :
  (find_weight_image "./galaxy-int.fits" (World galaxy_dir [])).1
  = (find_weight_image "./galaxy-int.fits" (World galaxy_dir' [PathExists "x"])).1.
Proof.
  apply (resolver_depends_on_candidates_only "./galaxy-int.fits"
           (World galaxy_dir []) (World galaxy_dir' [PathExists "x"])).
  by_compute.
Defined.

Lemma length_bind_const {A B} (f : A → list B) (k : nat) (l : list A) :
  (∀ x, length (f x) = k) → length (l ≫= f) = k * length l.
Proof.
  intros Hf. induction l as [|x l IH]; csimpl; [lia|].
  rewrite length_app, IH, Hf. simpl. lia.
Qed.

Lemma suffix_candidates_length (role image_path : string) :
  length (suffix_candidates role image_path)
  = 4 * length (WEIGHT_SUFFIXES !!! role).
Proof. unfold suffix_candidates. apply length_bind_const. intros suffix. reflexivity. Qed.

Lemma replacement_candidates_length (role : string) (names : list string)
    (image_path : string) :
  length (replacement_candidates role names image_path)
  = 4 * length names
    * length (List.filter (λ component, Str.contains component (path_stem image_path))
                          components_to_replace).
Proof.
  unfold replacement_candidates.
  induction components_to_replace as [|component l IH]; [simpl; lia|].
  rewrite bind_cons, length_app, IH. cbn [List.filter].
  destruct (Str.contains component (path_stem image_path)); simpl length; [|lia].
  rewrite (length_bind_const _ 4); [lia|]. intros name. reflexivity.
Qed.

(** One call of the resolver makes at least one and at most 120
    existence checks; when it finds no companion it has made exactly 40
    for the suffix pattern and 40 more for each marker the stem contains. *)
Theorem resolver_query_count (image_path : string) (w : world) :
  let out := find_weight_image image_path w in
  let markers :=
    List.filter (λ component, Str.contains component (path_stem image_path))
                components_to_replace in
  ∃ paths,
    trace out.2 = trace w ++ (PathExists <$> paths)
    ∧ 1 ≤ length paths ≤ 120
    ∧ (out.1 = inr (None, None) → length paths = 40 + 40 * length markers).
Proof.
  intros out markers. subst out.
  rewrite find_weight_image_trace, find_weight_image_result.
  exists (probed (files w) (checks image_path)).
  assert (length (checks image_path) = 40 + 40 * length markers) as Hlen.
  { unfold checks, suffix_checks, replacement_checks.
    rewrite !length_app, !suffix_candidates_length, !replacement_candidates_length.
    rewrite WEIGHT_SUFFIXES_rms, WEIGHT_SUFFIXES_weight. fold markers.
    unfold uncertainty_names, weight_names. simpl length. lia. }
  assert (length markers ≤ 2) as Hmarkers.
  { subst markers. etrans; [apply filter_length_le|]. done. }
  split; [done|]. split.
  - pose proof (probed_length (files w) (checks image_path)).
    split; [|lia].
    destruct (checks image_path) as [|[r p] l]; [simpl in Hlen; lia|].
    simpl. lia.
  - destruct (first_hit (files w) (checks image_path)) as [r|] eqn:Hhit.
    + apply first_hit_Some in Hhit as (? & ? & ? & ? & -> & _). done.
    + intros _. by rewrite (probed_None _ _ Hhit), length_fmap.
Qed.

Lemma endswith_comparable (e e' n : string) :
  Str.endswith e n = true → Str.endswith e' n = true →
  Str.endswith e e' = true ∨ Str.endswith e' e = true.
Proof.
  induction n as [|c n IH].
  - simpl. rewrite !orb_false_r. intros ->%String.eqb_eq ->%String.eqb_eq. by left.
  - rewrite !endswith_cons.
    intros [->%String.eqb_eq|He]%orb_true_iff [->%String.eqb_eq|He']%orb_true_iff.
    + left. apply endswith_refl.
    + right. rewrite endswith_cons, He'. apply orb_true_r.
    + left. rewrite endswith_cons, He. apply orb_true_r.
    + by apply IH.
Qed.

(** A name carries at most one of the four extensions. *)
Lemma file_ext_unique (e e' n : string) :
  e ∈ FILE_EXTS → e' ∈ FILE_EXTS →
  Str.endswith e n = true → Str.endswith e' n = true → e = e'.
Proof.
  intros He He' Hn Hn'.
  destruct (endswith_comparable e e' n Hn Hn') as [H|H];
    unfold FILE_EXTS in He, He'; rewrite !elem_of_cons, elem_of_nil in He, He';
    destruct He as [->|[->|[->|[->|[]]]]], He' as [->|[->|[->|[->|[]]]]];
    done.
Qed.

Lemma string_app_inj_r (a b e : string) : a +:+ e = b +:+ e → a = b.
Proof.
  intros Heq.
  assert (String.length a = String.length b) as Hlen.
  { apply (f_equal String.length) in Heq. rewrite !string_length_app in Heq. lia. }
  revert b Heq Hlen. induction a as [|x a IH]; intros [|y b] Heq Hlen; try done.
  rewrite !string_app_cons in Heq. injection Heq as -> Heq.
  f_equal. apply IH; [done|]. simpl in Hlen. lia.
Qed.

Lemma replacement_candidates_marker role names image_path c :
  c ∈ replacement_candidates role names image_path →
  ∃ component name e,
    component ∈ components_to_replace ∧ name ∈ names ∧ e ∈ FILE_EXTS
    ∧ Str.contains component (path_stem image_path) = true
    ∧ c = (role, replacement_path image_path component name e).
Proof.
  unfold replacement_candidates.
  intros (component & Hc & Hcomp)%list_elem_of_bind.
  destruct (Str.contains component (path_stem image_path)) eqn:Hcontains;
    [|by apply elem_of_nil in Hc].
  apply list_elem_of_bind in Hc as (name & Hc & Hname).
  apply list_elem_of_bind in Hc as (e & ->%list_elem_of_singleton & He).
  by exists component, name, e.
Qed.

(** The stem a candidate is built on differs from the stem of the image:
    a suffix is appended to it, or a marker that occurs in it is replaced. *)
Lemma candidate_base_differs (image_path : string) (c : string * string) :
  c ∈ checks image_path →
  ∃ base e, e ∈ FILE_EXTS ∧ base ≠ path_stem image_path
            ∧ c.2 = os_path_join (image_dir_of image_path) (base +:+ e).
Proof.
  unfold checks, suffix_checks, replacement_checks. rewrite !elem_of_app.
  intros [[Hc|Hc]|[Hc|Hc]].
  1,2: apply suffix_candidates_shape in Hc as (suffix & e & Hsuf & He & ->).
  3,4: apply replacement_candidates_marker in Hc
         as (component & n & e & Hcomp & Hn & He & Hcontains & ->).
  1,2: exists (path_stem image_path +:+ suffix), e.
  3,4: exists (Str.replace component ("-" +:+ n) (path_stem image_path)), e.
  all: cbn [snd]; unfold suffix_path, replacement_path.
  all: rewrite ?string_app_assoc; split_and!; [done| |done].
  1,2: intros Heq; apply (f_equal String.length) in Heq;
       rewrite string_length_app in Heq;
       assert (0 < String.length suffix); [|lia].
  - rewrite WEIGHT_SUFFIXES_rms, !elem_of_cons, elem_of_nil in Hsuf.
    destruct Hsuf as [->|[->|[->|[->|[->|[->|[]]]]]]]; simpl; lia.
  - rewrite WEIGHT_SUFFIXES_weight, !elem_of_cons, elem_of_nil in Hsuf.
    destruct Hsuf as [->|[->|[->|[->|[]]]]]; simpl; lia.
  - intros Heq.
    pose proof (replacement_replaces_marker component n Hcomp
                  ltac:(apply elem_of_app; by left) (path_stem image_path)) as Hnone.
    rewrite Heq in Hnone. congruence.
  - intros Heq.
    pose proof (replacement_replaces_marker component n Hcomp
                  ltac:(apply elem_of_app; by right) (path_stem image_path)) as Hnone.
    rewrite Heq in Hnone. congruence.
Qed.

Lemma join_dot_eq (y z : string) : os_path_join "." y = "./" +:+ z → y = z.
Proof.
  unfold os_path_join. destruct (Str.startswith "/" y) eqn:Hy.
  - intros ->. discriminate Hy.
  - change (String.eqb "." EmptyString || Str.endswith "/" ".") with false.
    cbn match. intros Heq. by apply (inj (String.app "./")) in Heq.
Qed.

Lemma probed_subset (fs : gset string) (cands : list (string * string)) (p : string) :
  p ∈ probed fs cands → p ∈ cands.*2.
Proof.
  rewrite (probed_prefix fs cands). apply (subseteq_take _ _ p).
Qed.

(** An image that [find_images] returns is never tested as its own
    companion, and so never returned as one: every candidate of the
    resolver differs from the image path. *)
Theorem image_is_not_its_own_candidate (fs : gset string) (t : list event)
    (images : list string) (image : string) :
  (find_images "." (World fs t)).1 = inr images →
  image ∈ images →
  ∀ w : world,
    let out := find_weight_image image w in
    ∃ paths,
      trace out.2 = trace w ++ (PathExists <$> paths)
      ∧ (image ∉ paths)
      ∧ ∀ role, out.1 ≠ inr (Some role, Some image).
Proof.
  rewrite find_images_run. cbn [fst files]. fold (discovered fs).
  intros [= <-] Himage w. cbv zeta.
  apply elem_of_discovered in Himage
    as (pattern & name & Hp & -> & _ & Hne & Hsep & Hhid & Hmatch).
  apply image_pattern_shape in Hp as (e & He & ->).
  destruct (file_ext_facts e He) as (Hlit & _).
  rewrite fnmatch_star in Hmatch by done.
  destruct (discovered_name_stem name e He Hmatch Hhid Hsep)
    as (s & -> & Hs & Hshid & Hssep & Hstem).
  assert (Forall (λ c : string * string, c.2 ≠ "./" +:+ s +:+ e)
                 (checks ("./" +:+ s +:+ e))) as Hdiffer.
  { apply Forall_forall. intros c Hc Heq.
    apply candidate_base_differs in Hc as (base & e' & He' & Hbase & Hpath).
    rewrite Hstem in Hbase. rewrite image_dir_dot, Heq in Hpath by done.
    symmetry in Hpath. apply join_dot_eq in Hpath.
    assert (e' = e) as ->.
    { apply (file_ext_unique e' e (s +:+ e)); [done|done| |].
      - rewrite <- Hpath. apply endswith_app_r, endswith_refl.
      - apply endswith_app_r, endswith_refl. }
    by apply string_app_inj_r in Hpath. }
  rewrite find_weight_image_trace, find_weight_image_result.
  eexists. split; [reflexivity|]. rewrite Forall_forall in Hdiffer. split.
  - intros (c & Hc & Hin)%probed_subset%list_elem_of_fmap.
    by apply (Hdiffer c Hin).
  - intros role Hres.
    destruct (first_hit (files w) (checks ("./" +:+ s +:+ e))) as [r|] eqn:Hhit;
      [|done].
    apply first_hit_Some in Hhit as (l1 & role' & path & l2 & -> & Heq & _).
    injection Hres as -> ->.
    apply (Hdiffer (role, "./" +:+ s +:+ e)); [|done].
    rewrite Heq. apply elem_of_app. right. apply elem_of_cons. by left.
Qed.

Lemma image_is_not_its_own_candidate_witness :
  (find_weight_image "./a_rms.fits" (World batch_dir [])).1
  ≠ inr (Some "MAP_RMS", Some "./a_rms.fits").
Proof.
  destruct (image_is_not_its_own_candidate batch_dir [] (discovered batch_dir)
              "./a_rms.fits") with (w := World batch_dir [])
    as (paths & _ & _ & Hnot).
  - vm_compute. reflexivity.
  - by_compute.
  - exact (Hnot "MAP_RMS").
Defined.

(** ** [check_sextractor] and [find_images] *)


Lemma NoDup_omap_inj {A B} (f : A → option B) (l : list A) :
  (∀ x y z, f x = Some z → f y = Some z → x = y) →
  NoDup l → NoDup (omap f l).
Proof.
  intros Hinj. induction 1 as [|x l Hx Hl IH]; csimpl; [constructor|].
  destruct (f x) as [z|] eqn:Hfx; [|done].
  constructor; [|done].
  intros (y & Hy & Hfy)%list_elem_of_omap.
  by rewrite (Hinj x y z Hfx Hfy) in Hx.
Qed.

Lemma NoDup_listdir_dot (fs : gset string) : NoDup (listdir fs ".").
Proof.
  unfold listdir. apply NoDup_omap_inj; [|apply NoDup_elements].
  intros x y z (-> & _)%entry_in_dot (-> & _)%entry_in_dot. done.
Qed.

Lemma NoDup_glob_images (fs : gset string) (pattern : string) :
  pattern ∈ IMAGE_EXTENSIONS → NoDup (glob_in fs (os_path_join "." pattern)).
Proof.
  intros (e & He & ->)%image_pattern_shape.
  destruct (file_ext_facts e He) as (_ & _ & _ & _ & Hdir & Hbase).
  unfold glob_in. rewrite Hdir, Hbase.
  apply NoDup_fmap_2_strong;
    [|apply NoDup_ListNoDup, List.NoDup_filter, NoDup_ListNoDup, NoDup_listdir_dot].
  intros x y Hx Hy Heq.
  apply list_elem_of_In, filter_In in Hx as [Hx _], Hy as [Hy _].
  apply list_elem_of_In, list_elem_of_omap in Hx as (px & _ & (_ & _ & Hxsep)%entry_in_dot).
  apply list_elem_of_In, list_elem_of_omap in Hy as (py & _ & (_ & _ & Hysep)%entry_in_dot).
  rewrite !join_dot in Heq by done. by apply (inj (String.app "./")) in Heq.
Qed.

Lemma NoDup_discovered (fs : gset string) : NoDup (discovered fs).
Proof.
  unfold discovered, discovered_in, sorted. rewrite merge_sort_Permutation.
  apply NoDup_bind.
  - intros p1 p2 c Hp1 Hp2 Hc1 Hc2.
    apply (elem_of_glob_images fs p1 c Hp1) in Hc1
      as (n1 & -> & _ & _ & _ & _ & Hm1).
    apply (elem_of_glob_images fs p2 _ Hp2) in Hc2
      as (n2 & Heq & _ & _ & _ & _ & Hm2).
    apply (inj (String.app "./")) in Heq as ->.
    apply image_pattern_shape in Hp1 as (e1 & He1 & ->).
    apply image_pattern_shape in Hp2 as (e2 & He2 & ->).
    destruct (file_ext_facts e1 He1) as (Hlit1 & _).
    destruct (file_ext_facts e2 He2) as (Hlit2 & _).
    rewrite fnmatch_star in Hm1, Hm2 by done.
    by rewrite (file_ext_unique e1 e2 n2 He1 He2 Hm1 Hm2).
  - intros p Hp. by apply NoDup_glob_images.
  - unfold IMAGE_EXTENSIONS. by_compute.
Qed.

Lemma Sorted_discovered (fs : gset string) : Sorted String.le (discovered fs).
Proof. unfold discovered, discovered_in, sorted. apply Sorted_merge_sort, _. Qed.

(** [find_images] returns exactly the visible one-component entries of
    the working directory whose name ends in one of [.fits], [.fit],
    [.FITS], [.FIT], each as [./name]; it changes no file. *)
Theorem find_images_exact (fs : gset string) (t : list event) :
  let out := find_images "." (World fs t) in
  ∃ images,
    out.1 = inr images
    ∧ files out.2 = fs
    ∧ ∀ p, p ∈ images
           ↔ ∃ name e,
               e ∈ FILE_EXTS ∧ p = "./" +:+ name ∧ p ∈ fs
               ∧ Str.has_sep name = false ∧ ishidden name = false
               ∧ Str.endswith e name = true.
Proof.
  intros out. subst out. rewrite find_images_run. cbn [fst snd files].
  fold (discovered fs). exists (discovered fs). split_and!; [done..|].
  intros p. rewrite elem_of_discovered. split.
  - intros (pattern & name & Hp & -> & Hin & Hne & Hsep & Hhid & Hmatch).
    apply image_pattern_shape in Hp as (e & He & ->).
    destruct (file_ext_facts e He) as (Hlit & _).
    rewrite fnmatch_star in Hmatch by done. by exists name, e.
  - intros (name & e & He & -> & Hin & Hsep & Hhid & Hend).
    destruct (file_ext_facts e He) as (Hlit & _ & _ & Hlen & _).
    exists (String "*" e), name. split_and!; try done.
    + apply image_pattern_shape. by exists e.
    + intros ->. apply endswith_split in Hend as [s Hs].
      apply (f_equal String.length) in Hs. rewrite string_length_app in Hs.
      simpl in Hs. lia.
    + by rewrite fnmatch_star.
Qed.

(** The list [find_images] returns is in ascending order and holds no
    path twice. *)
Theorem find_images_sorted_nodup (fs : gset string) (t : list event) :
  ∃ images,
    (find_images "." (World fs t)).1 = inr images
    ∧ Sorted String.le images ∧ NoDup images.
Proof.
  rewrite find_images_run. cbn [fst files]. fold (discovered fs).
  exists (discovered fs).
  split_and!; [done|apply Sorted_discovered|apply NoDup_discovered].
Qed.

(** ** [run_sextractor] *)










(** ** [main] *)

Lemma queries_app t1 t2 : queries (t1 ++ t2) = queries t1 ++ queries t2.
Proof. apply omap_app. Qed.

(** The four checks of [main] are made in a fixed order and the first
    that fails ends the run: the last line printed is the message of that
    check, and the later checks are not made (without the binary no file is
    queried; without [default.sex] the parameter file is not queried). *)
Theorem main_reports_first_failed_check (env : environment) (w : world) :
  fatal env (files w) →
  let out := main env w in
  let binary := sex_installed env
                && bool_decide (sex_status env ["sex"; "--version"] = 0%Z) in
  let config := bool_decide ("default.sex" ∈ files w) in
  let param := bool_decide ("default.param" ∈ files w) in
  out.1 = inl (SystemExit 1)
  ∧ queries (trace out.2)
    = queries (trace w)
      ++ (if binary then "default.sex" :: (if config then ["default.param"] else [])
          else [])
  ∧ last (printed (trace out.2))
    = Some (if negb binary then "Please install SExtractor first."
            else if negb config
                 then "ERROR: Configuration file 'default.sex' not found!"
            else if negb param
                 then "ERROR: Parameter file 'default.param' not found!"
            else "No FITS images found in current directory!").
Proof.
  intros Hfatal%fatal_iff_not_passes out binary config param.
  subst out binary config param. unfold passes in Hfatal.
  fold version_probe. fold (probe_ok env). fold CONFIG_FILE PARAM_FILE.
  unfold main.
  rewrite !bind_print. erewrite bind_ok by apply check_sextractor_run.
  cbn [files trace].
  destruct (probe_ok env); cbn [negb];
    [rewrite bind_ret|rewrite bind_sys_exit].
  2: { cbn [fst snd trace]. rewrite <- !app_assoc, queries_app, printed_app.
       split_and!; [done|reflexivity|]. rewrite last_app. reflexivity. }
  rewrite bind_exists. cbn [files trace].
  destruct (bool_decide (CONFIG_FILE ∈ files w)); cbn [negb];
    [rewrite bind_ret|rewrite bind_assoc, bind_print, bind_sys_exit].
  2: { cbn [fst snd trace]. rewrite <- !app_assoc, queries_app, printed_app.
       split_and!; [done|reflexivity|]. rewrite last_app. reflexivity. }
  rewrite bind_exists. cbn [files trace].
  destruct (bool_decide (PARAM_FILE ∈ files w)); cbn [negb];
    [rewrite bind_ret|rewrite bind_assoc, bind_print, bind_sys_exit].
  2: { cbn [fst snd trace]. rewrite <- !app_assoc, queries_app, printed_app.
       split_and!; [done|reflexivity|]. rewrite last_app. reflexivity. }
  rewrite bind_print. erewrite bind_ok by apply find_images_run.
  cbn [files trace]. fold (discovered (files w)).
  destruct (bool_decide (discovered (files w) = [])); [|done].
  rewrite bind_assoc, bind_print, bind_sys_exit.
  cbn [fst snd trace]. rewrite <- !app_assoc, queries_app, printed_app.
  split_and!; [done|reflexivity|]. rewrite last_app. reflexivity.
Qed.

Lemma main_reports_first_failed_check_witness :
  last (printed (trace (main env_ok (World lonely_dir [])).2))
  = Some "ERROR: Configuration file 'default.sex' not found!".
Proof.
  apply (main_reports_first_failed_check env_ok (World lonely_dir [])).
  apply fatal_iff_not_passes. vm_compute. reflexivity.
Defined.







(** ** Candidates lie in the directory of the image *)

Lemma has_sep_split_sep (s x : string) : x ∈ Str.split_sep s → Str.has_sep x = false.
Proof.
  revert x. induction s as [|c s IH]; intros x.
  - intros ->%list_elem_of_singleton. done.
  - rewrite split_sep_cons. destruct (Ascii.eqb c "/") eqn:Hc.
    + intros [->|Hx]%elem_of_cons; [done|by apply IH].
    + destruct (Str.split_sep s) as [|y ys].
      * intros ->%list_elem_of_singleton. simpl. by rewrite Hc.
      * intros [->|Hx]%elem_of_cons.
        -- simpl. rewrite Hc. apply IH. by left.
        -- apply IH. by right.
Qed.

Lemma has_sep_path_name (p : string) : Str.has_sep (path_name p) = false.
Proof.
  unfold path_name.
  set (l := List.filter _ _).
  assert (∀ x, x ∈ l → Str.has_sep x = false) as Hl.
  { intros x [Hx _]%list_elem_of_In%filter_In. apply list_elem_of_In in Hx.
    by apply (has_sep_split_sep p). }
  clearbody l. induction l as [|x l IH]; [done|].
  destruct l as [|y l]; [apply Hl; by left|].
  apply IH. intros z Hz. apply Hl. by right.
Qed.

Lemma has_sep_substring (n m : nat) (s : string) :
  Str.has_sep s = false → Str.has_sep (String.substring n m s) = false.
Proof.
  revert n m. induction s as [|c s IH]; intros n m Hs.
  - by destruct n, m.
  - simpl in Hs. apply orb_false_iff in Hs as [Hc Hs].
    destruct n as [|n]; [destruct m as [|m]|]; simpl; [done| |by apply IH].
    by rewrite Hc, IH.
Qed.

Lemma has_sep_path_stem (p : string) : Str.has_sep (path_stem p) = false.
Proof.
  unfold path_stem. pose proof (has_sep_path_name p) as Hname.
  destruct (Str.rfind "." (path_name p)) as [i|]; [|done].
  destruct ((0 <? i) && (i <? String.length (path_name p) - 1)); [|done].
  by apply has_sep_substring.
Qed.

(** Every candidate is the directory of the image joined with a name of
    one component. *)
Lemma candidate_in_dir (image_path : string) (c : string * string) :
  c ∈ checks image_path →
  ∃ x, Str.has_sep x = false ∧ c.2 = os_path_join (image_dir_of image_path) x.
Proof.
  pose proof (has_sep_path_stem image_path) as Hstem.
  unfold checks, suffix_checks, replacement_checks. rewrite !elem_of_app.
  intros [[Hc|Hc]|[Hc|Hc]].
  1,2: apply suffix_candidates_shape in Hc as (suffix & e & Hsuf & He & ->).
  3,4: apply replacement_candidates_shape in Hc
         as (component & n & e & Hcomp & Hn & He & ->).
  all: destruct (file_ext_facts e He) as (_ & Hesep & _).
  all: cbn [snd]; unfold suffix_path, replacement_path.
  all: eexists; split; [|reflexivity].
  all: rewrite !has_sep_app, ?Hstem, ?Hesep, ?orb_false_r; cbn [orb].
  - rewrite WEIGHT_SUFFIXES_rms, !elem_of_cons, elem_of_nil in Hsuf.
    by destruct Hsuf as [->|[->|[->|[->|[->|[->|[]]]]]]].
  - rewrite WEIGHT_SUFFIXES_weight, !elem_of_cons, elem_of_nil in Hsuf.
    by destruct Hsuf as [->|[->|[->|[->|[]]]]].
  - apply has_sep_replace_from; [|done].
    unfold uncertainty_names in Hn. rewrite !elem_of_cons, elem_of_nil in Hn.
    by destruct Hn as [->|[->|[->|[->|[->|[->|[]]]]]]].
  - apply has_sep_replace_from; [|done].
    unfold weight_names in Hn. rewrite !elem_of_cons, elem_of_nil in Hn.
    by destruct Hn as [->|[->|[->|[->|[]]]]].
Qed.

Lemma rstrip_sep_cons (c : ascii) (r : string) :
  Str.rstrip_sep (String c r)
  = if Ascii.eqb c "/" && String.eqb (Str.rstrip_sep r) EmptyString
    then EmptyString else String c (Str.rstrip_sep r).
Proof. reflexivity. Qed.

Lemma string_eqb_cons (a b : ascii) (s t : string) :
  String.eqb (String a s) (String b t) = Ascii.eqb a b && String.eqb s t.
Proof. reflexivity. Qed.

Lemma rstrip_sep_no_trailing (s : string) :
  Str.endswith "/" (Str.rstrip_sep s) = false.
Proof.
  induction s as [|c r IH]; [done|]. rewrite rstrip_sep_cons.
  destruct (Ascii.eqb c "/" && String.eqb (Str.rstrip_sep r) EmptyString) eqn:Hcond;
    [done|].
  rewrite endswith_cons, IH, orb_false_r.
  change "/" with (String "/" EmptyString). rewrite string_eqb_cons.
  by rewrite Ascii.eqb_sym, String.eqb_sym.
Qed.

Lemma rstrip_sep_nonempty (s : string) :
  Str.all_sep s = false → Str.rstrip_sep s ≠ EmptyString.
Proof.
  induction s as [|c r IH]; [done|]. simpl Str.all_sep. rewrite rstrip_sep_cons.
  destruct (Ascii.eqb c "/"); cbn [andb]; [|done].
  intros Hr. pose proof (IH Hr) as Hne. apply String.eqb_neq in Hne.
  by rewrite Hne.
Qed.

(** The directory the resolver looks in is never empty, and it ends in a
    slash only when it consists of slashes. *)
Lemma image_dir_normal (image_path : string) :
  image_dir_of image_path ≠ EmptyString
  ∧ (Str.all_sep (image_dir_of image_path) = true
     ∨ Str.endswith "/" (image_dir_of image_path) = false).
Proof.
  unfold image_dir_of.
  destruct (String.eqb_spec (os_path_dirname image_path) EmptyString) as [Heq|Hne];
    [split; [done|by right]|].
  split; [done|]. unfold os_path_dirname in *.
  destruct (String.eqb_spec (Str.upto_last_sep image_path) EmptyString) as [Hh|Hh];
    cbn [negb andb] in *; [done|].
  destruct (Str.all_sep (Str.upto_last_sep image_path)) eqn:Hall; cbn [negb] in *.
  - by left.
  - right. apply rstrip_sep_no_trailing.
Qed.

Lemma upto_last_sep_app (a x : string) :
  Str.has_sep x = false →
  Str.upto_last_sep (a +:+ String "/" x) = a +:+ "/".
Proof.
  intros Hx. induction a as [|c a IH].
  - rewrite !string_app_nil_l. cbn [Str.upto_last_sep Str.has_sep].
    change (Ascii.eqb "/" "/") with true. cbn [orb].
    destruct x as [|d x]; [done|]. cbn [Str.upto_last_sep]. by rewrite Hx.
  - rewrite !string_app_cons. cbn [Str.upto_last_sep].
    assert (Str.has_sep (String c (a +:+ String "/" x)) = true) as ->.
    { simpl. rewrite has_sep_app. simpl. by rewrite !orb_true_r. }
    by rewrite IH.
Qed.

Lemma all_sep_snoc (d : string) :
  Str.all_sep d = true → d ≠ EmptyString →
  ∃ d0, d = d0 +:+ "/".
Proof.
  induction d as [|c d IH]; [done|]. simpl.
  intros [->%Ascii.eqb_eq Hd]%andb_true_iff _.
  destruct d as [|c' d]; [by exists EmptyString|].
  destruct (IH Hd ltac:(done)) as [d0 ->]. by exists (String "/" d0).
Qed.

Lemma all_sep_app_sep (d : string) :
  Str.all_sep (d +:+ "/") = Str.all_sep d.
Proof.
  induction d as [|c d IH]; [done|]. rewrite string_app_cons. simpl. by rewrite IH.
Qed.

Lemma all_sep_endswith (d : string) :
  Str.all_sep d = true → d ≠ EmptyString → Str.endswith "/" d = true.
Proof.
  intros Hall Hne. destruct (all_sep_snoc d Hall Hne) as [d0 ->].
  apply endswith_app_r. done.
Qed.

Lemma rstrip_sep_app_sep (d : string) :
  d ≠ EmptyString → Str.endswith "/" d = false → Str.rstrip_sep (d +:+ "/") = d.
Proof.
  induction d as [|c r IH]; [done|]. intros _ Hend.
  rewrite endswith_cons in Hend. apply orb_false_iff in Hend as [Hc Hr].
  rewrite string_app_cons, rstrip_sep_cons.
  destruct r as [|c' r].
  - rewrite string_app_nil_l. change (Str.rstrip_sep "/") with EmptyString.
    change "/" with (String "/" EmptyString) in Hc. rewrite string_eqb_cons in Hc.
    rewrite andb_true_r, Ascii.eqb_sym in Hc. by rewrite Hc.
  - rewrite IH by done. by rewrite andb_false_r.
Qed.

Lemma dirname_join (d x : string) :
  d ≠ EmptyString →
  Str.all_sep d = true ∨ Str.endswith "/" d = false →
  Str.has_sep x = false →
  os_path_dirname (os_path_join d x) = d.
Proof.
  intros Hne Hd Hx. unfold os_path_join.
  rewrite startswith_sep_has_sep by done.
  apply String.eqb_neq in Hne as Hne'. rewrite Hne'. cbn [orb].
  destruct (Str.endswith "/" d) eqn:Hend.
  - destruct Hd as [Hall|?]; [|done].
    destruct (all_sep_snoc d Hall) as [d0 ->]; [by apply String.eqb_neq|].
    rewrite string_app_assoc. unfold os_path_dirname.
    change ("/" +:+ x) with (String "/" x). rewrite upto_last_sep_app by done.
    rewrite Hall, Hne'. done.
  - unfold os_path_dirname.
    change ("/" +:+ x) with (String "/" x). rewrite upto_last_sep_app by done.
    assert (Str.all_sep (d +:+ "/") = false) as ->.
    { rewrite all_sep_app_sep. destruct (Str.all_sep d) eqn:Hall; [|done].
      apply String.eqb_neq in Hne'. by rewrite all_sep_endswith in Hend. }
    assert (String.eqb (d +:+ "/") EmptyString = false) as -> by by destruct d.
    cbn [negb andb]. apply rstrip_sep_app_sep; [by apply String.eqb_neq|done].
Qed.

(** Every path the resolver tests, and so the companion it returns, lies
    in the directory of the primary image: [os.path.dirname] of it is the
    directory of the image path, or ["."] when the image path has none. *)
Theorem candidates_in_image_directory (image_path : string) (w : world) :
  let out := find_weight_image image_path w in
  let image_dir :=
    if String.eqb (os_path_dirname image_path) EmptyString then "."
    else os_path_dirname image_path in
  ∃ paths,
    trace out.2 = trace w ++ (PathExists <$> paths)
    ∧ Forall (λ p, os_path_dirname p = image_dir) paths
    ∧ ∀ role path,
        out.1 = inr (Some role, Some path) → os_path_dirname path = image_dir.
Proof.
  intros out image_dir. subst out. fold (image_dir_of image_path) in image_dir.
  subst image_dir.
  assert (∀ c, c ∈ checks image_path →
               os_path_dirname c.2 = image_dir_of image_path) as Hdir.
  { intros c (x & Hx & ->)%candidate_in_dir.
    destruct (image_dir_normal image_path) as [Hne Hnormal].
    by apply dirname_join. }
  rewrite find_weight_image_trace, find_weight_image_result.
  eexists. split; [reflexivity|]. split.
  - apply Forall_forall. intros p (c & -> & Hc)%probed_subset%list_elem_of_fmap.
    by apply Hdir.
  - intros role path Hres.
    destruct (first_hit (files w) (checks image_path)) as [r|] eqn:Hhit; [|done].
    apply first_hit_Some in Hhit as (l1 & role' & path' & l2 & -> & Heq & _).
    injection Hres as -> ->.
    apply (Hdir (role, path)). rewrite Heq.
    apply elem_of_app. right. apply elem_of_cons. by left.
Qed.
